(** * A project-management widget: validator, people label and project store

    Shallow embedding of [src/unnamed/part_000] (the [Project] entity) and
    [src/unnamed/part_001] (the validator, the item label and the observable
    [ProjectState] store), with the properties stated about them.

    Conventions of the embedding.
    - A JavaScript [number] is an IEEE 754 binary64 value: Rocq's primitive
      [float].  Comparisons are the primitive ones, so [NaN], the two zeros
      and the infinities behave as they do in the source language.
    - A JavaScript string is a [string]; each character stands for one code
      unit below 256.
    - Objects and arrays live in a heap of references, so that the in-place
      mutation of [updateProject] and the copies made by [slice] can be told
      apart from sharing.
    - Listener callbacks are code of the subscribers.  The store only calls
      them: every call is recorded, in order, in a trace together with the
      array reference it was given. *)

From Stdlib Require Import Uint63 ZArith QArith Qround PrimFloat FloatOps SpecFloat Ascii String.
From Stdlib Require FloatAxioms.
From stdpp Require Import gmap strings list.

Local Open Scope Z_scope.

(** ** The runtime notions the source relies on *)

Module JS.

(** *** Strings: [String.prototype.trim] *)

(** WhiteSpace and LineTerminator code units below 256: TAB, LF, VT, FF, CR,
    SP and NBSP. *)
Definition isWhiteSpace (c : ascii) : bool :=
  match N_of_ascii c with
  | 9%N | 10%N | 11%N | 12%N | 13%N | 32%N | 160%N => true
  | _ => false
  end.

Fixpoint trimStart (s : string) : string :=
  match s with
  | EmptyString => EmptyString
  | String c s' => if isWhiteSpace c then trimStart s' else s
  end.

Fixpoint trimEnd (s : string) : string :=
  match s with
  | EmptyString => EmptyString
  | String c s' =>
      match trimEnd s' with
      | EmptyString => if isWhiteSpace c then EmptyString else String c EmptyString
      | t => String c t
      end
  end.

Definition trim (s : string) : string := trimEnd (trimStart s).

(** *** Numbers *)

Abbreviation number := float.

(** ToBoolean on a number: [+0], [-0] and [NaN] are falsy. *)
Definition truthy (x : number) : bool := negb (is_zero x || is_nan x).

(** The length of a string, as a number.  Exact below [2^53], which bounds
    the length of every JavaScript string. *)
Definition number_of_nat (n : nat) : number :=
  PrimFloat.of_uint63 (Uint63.of_Z (Z.of_nat n)).

(** *** [Number::toString], radix 10 *)

Definition digitChar (d : Z) : ascii :=
  match d with
  | 0 => "0" | 1 => "1" | 2 => "2" | 3 => "3" | 4 => "4"
  | 5 => "5" | 6 => "6" | 7 => "7" | 8 => "8" | _ => "9"
  end%char.

Fixpoint decimalDigits (fuel : nat) (n : Z) (acc : string) : string :=
  match fuel with
  | O => acc
  | S fuel' =>
      let acc' := String (digitChar (n mod 10)) acc in
      if n / 10 =? 0 then acc' else decimalDigits fuel' (n / 10) acc'
  end.

(** The decimal digits of a natural number, most significant first. *)
Definition decimal (n : Z) : string :=
  decimalDigits (S (Z.to_nat (Z.log2 n))) n EmptyString.

Fixpoint zeros (n : nat) : string :=
  match n with
  | O => EmptyString
  | S n' => String "0"%char (zeros n')
  end.

(** The exact value of a finite number. *)
Definition exact (x : number) : Q :=
  match Prim2SF x with
  | S754_finite _ m e => inject_Z (Zpos m) * Qpower 2 e
  | _ => 0
  end%Q.

Definition mantissaEven (x : number) : bool :=
  match Prim2SF x with
  | S754_finite _ m _ => Z.even (Zpos m)
  | _ => true
  end.

Definition Qlt_bool (a b : Q) : bool := negb (Qle_bool b a).

(** [roundsTo x s q]: the decimal [s * 10^q] denotes the positive finite
    number [x], that is, it lies in the interval of the reals that round to
    [x] (to nearest, ties to even).  Above the largest finite number the
    interval ends halfway to [2^1024]. *)
Definition roundsTo (x : number) (s q : Z) : bool :=
  let v := (inject_Z s * Qpower 10 q)%Q in
  let up := next_up x in
  let above := if is_infinity up then Qpower 2 1024 else exact up in
  let lo := ((exact (next_down x) + exact x) / 2)%Q in
  let hi := ((exact x + above) / 2)%Q in
  if mantissaEven x then Qle_bool lo v && Qle_bool v hi
  else Qlt_bool lo v && Qlt_bool v hi.

(** A lower bound of the decimal exponent: with [2^b <= x] for the binary
    exponent [b], and [|b| < 1100], [b * 30103 / 100000 - 1] is below
    [log10 x]. *)
Definition decadeBelow (x : number) : Z :=
  match Prim2SF x with
  | S754_finite _ m e => (e + Z.log2 (Zpos m)) * 30103 / 100000 - 1
  | _ => 0
  end.

(** The least [n' >= n] with [x < 10^n']. *)
Fixpoint decade (fuel : nat) (x : Q) (n : Z) : Z :=
  match fuel with
  | O => n
  | S fuel' => if Qlt_bool x (Qpower 10 n) then n else decade fuel' x (n + 1)
  end.

(** The [k]-digit integer [s] with [s * 10^(n-k)] denoting [x], if there is
    one; of two, the one closer to [x], and the even one on a tie. *)
Definition candidate (x : number) (n k : Z) : option Z :=
  let xq := exact x in
  let sLo := Qfloor (xq * Qpower 10 (k - n)) in
  let sHi := sLo + 1 in
  let okLo := roundsTo x sLo (n - k) in
  let okHi := (sHi <? 10 ^ k) && roundsTo x sHi (n - k) in
  match okLo, okHi with
  | true, true =>
      let dLo := (xq - inject_Z sLo * Qpower 10 (n - k))%Q in
      let dHi := (inject_Z sHi * Qpower 10 (n - k) - xq)%Q in
      if Qlt_bool dLo dHi then Some sLo
      else if Qlt_bool dHi dLo then Some sHi
      else if Z.even sLo then Some sLo else Some sHi
  | true, false => Some sLo
  | false, true => Some sHi
  | false, false => None
  end.

(** The integers [n], [k], [s] of [Number::toString] step 5: [k] as small as
    possible.  Seventeen digits always suffice for a binary64 value. *)
Fixpoint shortest (fuel : nat) (x : number) (n k : Z) : Z * Z * Z :=
  match fuel with
  | O => (n, k, Qfloor (exact x * Qpower 10 (k - n)))
  | S fuel' =>
      match candidate x n k with
      | Some s => (n, k, s)
      | None =>
          if (k =? 1) && roundsTo x 1 n then (n + 1, 1, 1)
          else shortest fuel' x n (k + 1)
      end
  end.

Definition exponentPart (e : Z) : string :=
  String "e"%char
    (String (if e <? 0 then "-"%char else "+"%char) (decimal (Z.abs e))).

(** Steps 6 to 10: the digits laid out as an integer, a fraction or in
    exponential notation. *)
Definition layout (n k s : Z) : string :=
  let digits := decimal s in
  if (k <=? n) && (n <=? 21) then
    digits +:+ zeros (Z.to_nat (n - k))
  else if (0 <? n) && (n <=? 21) then
    substring 0 (Z.to_nat n) digits +:+ "." +:+
    substring (Z.to_nat n) (Z.to_nat (k - n)) digits
  else if (-6 <? n) && (n <=? 0) then
    "0." +:+ zeros (Z.to_nat (- n)) +:+ digits
  else if k =? 1 then
    digits +:+ exponentPart (n - 1)
  else
    substring 0 1 digits +:+ "." +:+
    substring 1 (Z.to_nat (k - 1)) digits +:+ exponentPart (n - 1).

Definition positiveToString (x : number) : string :=
  if is_infinity x then "Infinity"
  else
    let n := decade 8 (exact x) (decadeBelow x) in
    let '(n, k, s) := shortest 17 x n 1 in
    layout n k s.

Definition Number_toString (x : number) : string :=
  if is_nan x then "NaN"
  else if is_zero x then "0"
  else if (x <? 0)%float then "-" +:+ positiveToString (- x)%float
  else positiveToString x.

End JS.

(** ** The Project entity ([part_000]) *)

Inductive ProjectStatus := ACTIVE | FINISHED.

Module Project.

Record t := mk {
  id : string;
  title : string;
  description : string;
  people : JS.number;
  status : ProjectStatus
}.

(** The assignment [project.status = status]. *)
Definition set_status (s : ProjectStatus) (p : t) : t :=
  mk (id p) (title p) (description p) (people p) s.

End Project.

(** ** The validator ([part_001], lines 45 to 75) *)

(** [string | number] *)
Inductive Value :=
| Str (s : string)
| Num (n : JS.number).

(** [value.toString()] *)
Definition toString (v : Value) : string :=
  match v with
  | Str s => s
  | Num n => JS.Number_toString n
  end.

Module ValidatorConfig.

(** An absent optional field is [None]. *)
Record t := mk {
  value : Value;
  required : option bool;
  minLength : option JS.number;
  maxLength : option JS.number;
  min : option JS.number;
  max : option JS.number
}.

End ValidatorConfig.

(** The truthiness test of [config.required]: [undefined] and [false] are
    falsy.  A bound is tested with [JS.truthy] when it is present. *)
Definition truthyFlag (o : option bool) : bool :=
  match o with
  | Some b => b
  | None => false
  end.

(** [s.length], as a number. *)
Definition lengthOf (s : string) : JS.number :=
  JS.number_of_nat (String.length s).

(** [a >= b] and [a <= b] on numbers: false when either side is [NaN]. *)
Definition ge (a b : JS.number) : bool := (b <=? a)%float.
Definition le (a b : JS.number) : bool := (a <=? b)%float.

(** Each guard is a truthiness test of the constraint followed, for a
    bound, by the [typeof] test of the value; the checks accumulate in
    [isValid]. *)
Definition validate (config : ValidatorConfig.t) : bool :=
  let isValid := true in
  let isValid :=
    if truthyFlag (ValidatorConfig.required config)
    then isValid &&
         (0 <? String.length (JS.trim (toString (ValidatorConfig.value config))))%nat
    else isValid in
  let isValid :=
    match ValidatorConfig.minLength config, ValidatorConfig.value config with
    | Some minLength, Str s =>
        if JS.truthy minLength then isValid && ge (lengthOf s) minLength
        else isValid
    | _, _ => isValid
    end in
  let isValid :=
    match ValidatorConfig.maxLength config, ValidatorConfig.value config with
    | Some maxLength, Str s =>
        if JS.truthy maxLength then isValid && le (lengthOf s) maxLength
        else isValid
    | _, _ => isValid
    end in
  let isValid :=
    match ValidatorConfig.min config, ValidatorConfig.value config with
    | Some min, Num n =>
        if JS.truthy min then isValid && ge n min else isValid
    | _, _ => isValid
    end in
  let isValid :=
    match ValidatorConfig.max config, ValidatorConfig.value config with
    | Some max, Num n =>
        if JS.truthy max then isValid && le n max else isValid
    | _, _ => isValid
    end in
  isValid.

(** *** The contract in the words of the specification

    Every constraint that is specified must pass.  [required] fails on an
    empty or whitespace-only string; the length bounds bind string values
    and the range bounds bind numeric values; an unset constraint is
    skipped. *)

Definition blank (s : string) : bool :=
  match JS.trim s with
  | EmptyString => true
  | String _ _ => false
  end.

Definition requiredPasses (config : ValidatorConfig.t) : bool :=
  match ValidatorConfig.required config, ValidatorConfig.value config with
  | Some true, Str s => negb (blank s)
  | _, _ => true
  end.

Definition lengthBoundPasses (cmp : JS.number -> JS.number -> bool)
    (bound : option JS.number) (v : Value) : bool :=
  match bound, v with
  | Some b, Str s => cmp (lengthOf s) b
  | _, _ => true
  end.

Definition rangeBoundPasses (cmp : JS.number -> JS.number -> bool)
    (bound : option JS.number) (v : Value) : bool :=
  match bound, v with
  | Some b, Num n => cmp n b
  | _, _ => true
  end.

Definition validate_spec (config : ValidatorConfig.t) : bool :=
  requiredPasses config
  && lengthBoundPasses ge (ValidatorConfig.minLength config) (ValidatorConfig.value config)
  && lengthBoundPasses le (ValidatorConfig.maxLength config) (ValidatorConfig.value config)
  && rangeBoundPasses ge (ValidatorConfig.min config) (ValidatorConfig.value config)
  && rangeBoundPasses le (ValidatorConfig.max config) (ValidatorConfig.value config).

(** A bound that the guards of [validate] see: absent, or truthy. *)
Definition seen (bound : option JS.number) : bool :=
  match bound with
  | Some b => JS.truthy b
  | None => true
  end.

(** ** The people label of an item ([part_001], lines 89 to 94) *)

Definition peopleCount (project : Project.t) : string :=
  if (Project.people project =? 1)%float then "1 person assigned"
  else JS.Number_toString (Project.people project) +:+ " people assigned".

(** ** The observable store ([part_001], lines 185 to 229) *)

(** References to heap-allocated objects and arrays. *)
Abbreviation ref := positive.

Inductive Error := TypeError.

Section Store.

(** [Listener<Project>]: a callback of a subscriber, opaque to the store. *)
Context {Listener : Type}.

(** The call [listener(items)], with the array reference it receives. *)
Inductive Event := Call (listener : Listener) (items : ref).

(** The heap, the two fields of the [ProjectState] instance, and the calls
    made so far, oldest first. *)
Record World := mkWorld {
  objects : gmap ref Project.t;
  arrays : gmap ref (list ref);
  listeners : list Listener;
  projects : ref;
  calls : list Event
}.

Inductive Completion :=
| Normal (w : World)
| Throw (e : Error) (w : World).

(** *** Heap primitives *)

Definition read (a : ref) (w : World) : list ref :=
  default [] (arrays w !! a).

(** [new Project(...)] *)
Definition newObject (p : Project.t) (w : World) : ref * World :=
  let o := fresh (dom (objects w)) in
  (o, mkWorld (<[o := p]> (objects w)) (arrays w) (listeners w) (projects w) (calls w)).

(** A new array holding [items]. *)
Definition newArray (items : list ref) (w : World) : ref * World :=
  let a := fresh (dom (arrays w)) in
  (a, mkWorld (objects w) (<[a := items]> (arrays w)) (listeners w) (projects w) (calls w)).

(** [a.push(o)]: the array [a] itself grows. *)
Definition push (a o : ref) (w : World) : World :=
  mkWorld (objects w) (alter (fun items => items ++ [o]) a (arrays w))
          (listeners w) (projects w) (calls w).

(** [a.slice()]: a new array with the same elements. *)
Definition slice (a : ref) (w : World) : ref * World :=
  newArray (read a w) w.

(** [o.status = status]: the object [o] itself changes. *)
Definition assignStatus (o : ref) (s : ProjectStatus) (w : World) : World :=
  mkWorld (alter (Project.set_status s) o (objects w)) (arrays w)
          (listeners w) (projects w) (calls w).

Definition call (listener : Listener) (items : ref) (w : World) : World :=
  mkWorld (objects w) (arrays w) (listeners w) (projects w)
          (calls w ++ [Call listener items]).

(** *** [State] and [ProjectState] *)

(** [new ProjectState()]: no listener, an empty project array. *)
Definition init : World :=
  let a := fresh (dom (∅ : gmap ref (list ref))) in
  mkWorld ∅ {[a := []]} [] a [].

Definition addListener (listenerFn : Listener) (w : World) : World :=
  mkWorld (objects w) (arrays w) (listeners w ++ [listenerFn]) (projects w) (calls w).

(** [this.listeners.forEach((listener) => listener(this.projects.slice()))] *)
Fixpoint forEachListener (ls : list Listener) (w : World) : World :=
  match ls with
  | [] => w
  | listener :: rest =>
      let '(snapshot, w1) := slice (projects w) w in
      forEachListener rest (call listener snapshot w1)
  end.

Definition notify (w : World) : World := forEachListener (listeners w) w.

(** [random] is the value that [Math.random()] returns in this call. *)
Definition addProject (random : JS.number) (title description : string)
    (numPeople : JS.number) (w : World) : World :=
  let '(newProject, w1) :=
    newObject (Project.mk (JS.Number_toString random) title description
                          numPeople ACTIVE) w in
  let w2 := push (projects w1) newProject w1 in
  notify w2.

(** The world of [addProject] after [new Project(...)] and [push], before
    the listeners are notified. *)
Definition pushed (p : Project.t) (w : World) : World :=
  let '(o, w1) := newObject p w in push (projects w1) o w1.

(** [p.id === id] for the object behind [o]. *)
Definition hasId (id : string) (w : World) (o : ref) : bool :=
  match objects w !! o with
  | Some p => String.eqb (Project.id p) id
  | None => false
  end.

(** [this.projects.filter((p) => p.id === id)[0]] is [undefined] when
    nothing matches, and assigning to a property of [undefined] throws. *)
Definition updateProject (id : string) (status : ProjectStatus) (w : World)
    : Completion :=
  match List.filter (hasId id w) (read (projects w) w) with
  | [] => Throw TypeError w
  | project :: _ =>
      let w1 := assignStatus project status w in
      Normal (notify w1)
  end.

(** *** Views and invariants *)

(** The projects behind the elements of an array. *)
Definition items (a : ref) (w : World) : list Project.t :=
  omap (fun o => objects w !! o) (read a w).

(** The store's project list. *)
Definition projectList (w : World) : list Project.t := items (projects w) w.

Definition ids (w : World) : list string := Project.id <$> projectList w.

(** The store's array exists, every array element is a live object, and no
    object occurs twice in the store's array. *)
Record wf (w : World) : Prop := mkWf {
  wf_projects : is_Some (arrays w !! projects w);
  wf_elements : forall a l o, arrays w !! a = Some l -> o ∈ l -> is_Some (objects w !! o);
  wf_nodup : NoDup (read (projects w) w)
}.

(** The states of a store: what the three operations produce from a new
    instance. *)
Inductive reachable : World -> Prop :=
| reach_init : reachable init
| reach_addListener l w :
    reachable w -> reachable (addListener l w)
| reach_addProject random title description numPeople w :
    reachable w -> reachable (addProject random title description numPeople w)
| reach_updateProject id status w w' :
    reachable w -> updateProject id status w = Normal w' -> reachable w'.

(** One notification pass between [w] and [w']: one call per registered
    listener, in registration order; each call receives an array of its
    own, allocated during the pass, that is not the store's array and holds
    the store's current elements, hence all of its current projects. *)
Definition notified (w w' : World) : Prop :=
  exists snapshots : list ref,
    calls w' = calls w ++ zip_with Call (listeners w) snapshots
    /\ length snapshots = length (listeners w)
    /\ NoDup snapshots
    /\ forall a, a ∈ snapshots ->
         a <> projects w'
         /\ arrays w !! a = None
         /\ arrays w' !! a = Some (read (projects w') w')
         /\ items a w' = projectList w'.

(** A run of [addProject] calls, each with its draw and its arguments. *)
Definition addProjects (args : list (JS.number * string * string * JS.number))
    (w : World) : World :=
  foldl (fun w '(random, title, description, numPeople) =>
           addProject random title description numPeople w) w args.

(** The ids that a run of [addProject] calls generates: the decimal strings
    of its draws. *)
Definition drawn (args : list (JS.number * string * string * JS.number))
    : list string :=
  (fun '(random, _, _, _) => JS.Number_toString random) <$> args.

Definition event_listener (e : Event) : Listener :=
  match e with Call l _ => l end.

End Store.

Arguments World : clear implicits.
Arguments Event : clear implicits.
Arguments Completion : clear implicits.

(** *** A scenario

    One subscriber, called [0], and the project of the specification's
    example; then a second project. *)

Definition shed : World nat :=
  addProject 0.5 "Build shed" "construct a garden shed" 2
    (addListener 0%nat init).

Definition sheds : World nat :=
  addProject 0.25 "Paint shed" "paint the garden shed" 1 shed.

(** ** Further definitions *)

(** A string made of white space only (the empty string included). *)
Fixpoint allWhiteSpace (s : string) : bool :=
  match s with
  | EmptyString => true
  | String c s' => JS.isWhiteSpace c && allWhiteSpace s'
  end.

(** *** Runs of the store *)

Section StoreRuns.

Context {Listener : Type}.

(** One operation that completes.  ([updateProject] that throws leaves the
    world as it was.) *)
Inductive step : World Listener -> World Listener -> Prop :=
| step_addListener l w :
    step w (addListener l w)
| step_addProject random title description numPeople w :
    step w (addProject random title description numPeople w)
| step_updateProject id status w w' :
    updateProject id status w = Normal w' -> step w w'.

(** [registered ls w]: [w] is a state of a store on which [addListener] was
    called with the listeners of [ls], one call per element, in that
    order, among any [addProject] and completed [updateProject] calls. *)
Inductive registered : list Listener -> World Listener -> Prop :=
| registered_init :
    registered [] init
| registered_addListener l ls w :
    registered ls w -> registered (ls ++ [l]) (addListener l w)
| registered_addProject random title description numPeople ls w :
    registered ls w ->
    registered ls (addProject random title description numPeople w)
| registered_updateProject id status ls w w' :
    registered ls w -> updateProject id status w = Normal w' ->
    registered ls w'.

(** Between [w] and [w'] the listeners of [ls] were called, one call per
    element and in the order of [ls]; each call received an array of its
    own, allocated in between, that is not the store's array and holds
    the store's current elements, hence all of its current projects. *)
Definition calledInOrder (ls : list Listener) (w w' : World Listener) : Prop :=
  exists snapshots : list ref,
    calls w' = calls w ++ zip_with Call ls snapshots
    /\ length snapshots = length ls
    /\ NoDup snapshots
    /\ forall a, a ∈ snapshots ->
         a <> projects w'
         /\ arrays w !! a = None
         /\ arrays w' !! a = Some (read (projects w') w')
         /\ items a w' = projectList w'.

End StoreRuns.

(** A store with two subscribers, [0] registered before [1], and the
    project of the specification's example. *)
Definition workshop : World nat :=
  addProject 0.5 "Build shed" "construct a garden shed" 2
    (addListener 1%nat (addListener 0%nat init)).

(** What [updateProject] never writes: id, title, description and people. *)
Definition core (p : Project.t) : string * string * string * JS.number :=
  (Project.id p, Project.title p, Project.description p, Project.people p).

(** The project list after [updateProject], as a function of the list
    before: the first project with the id gets the status. *)
Fixpoint setStatusOfFirst (id : string) (s : ProjectStatus)
    (l : list Project.t) : list Project.t :=
  match l with
  | [] => []
  | p :: l' =>
      if String.eqb (Project.id p) id then Project.set_status s p :: l'
      else p :: setStatusOfFirst id s l'
  end.

(** *** [StringToNumber]: the unary [+] on a string *)

Module Coercion.

Definition isDigit (c : ascii) : bool :=
  (48 <=? N_of_ascii c)%N && (N_of_ascii c <=? 57)%N.

(** The value of a digit in a radix up to 16, if the character is one. *)
Definition radixDigit (radix : Z) (c : ascii) : option Z :=
  let n := Z.of_N (N_of_ascii c) in
  let v :=
    if (48 <=? n) && (n <=? 57) then n - 48
    else if (97 <=? n) && (n <=? 102) then n - 87
    else if (65 <=? n) && (n <=? 70) then n - 55
    else radix in
  if v <? radix then Some v else None.

(** A run of digits: its value on top of [acc], how many were read, and
    what follows. *)
Fixpoint readDigits (s : string) (acc count : Z) : Z * Z * string :=
  match s with
  | String c s' =>
      if isDigit c
      then readDigits s' (10 * acc + (Z.of_N (N_of_ascii c) - 48)) (count + 1)
      else (acc, count, s)
  | EmptyString => (acc, count, s)
  end.

(** A non-empty run of digits of the radix that ends the string. *)
Fixpoint readRadix (radix : Z) (s : string) (acc : Z) : option Z :=
  match s with
  | String c s' =>
      match radixDigit radix c with
      | Some v =>
          match s' with
          | EmptyString => Some (radix * acc + v)
          | _ => readRadix radix s' (radix * acc + v)
          end
      | None => None
      end
  | EmptyString => None
  end.

(** The number nearest to [m * 10^e], ties to even, for [m > 0]. *)
Definition nearest (m e : Z) : JS.number :=
  if 0 <=? e
  then SF2Prim (binary_normalize prec emax (m * 10 ^ e) 0 false)
  else SF2Prim (SFdiv prec emax (S754_finite false (Z.to_pos m) 0)
                      (S754_finite false (Z.to_pos (10 ^ (- e))) 0)).

Definition signed (negative : bool) (x : JS.number) : JS.number :=
  if negative then (- x)%float else x.

(** [ExponentPart], or nothing, up to the end of the string. *)
Definition readExponent (s : string) : option Z :=
  match s with
  | EmptyString => Some 0
  | String c s' =>
      if (Ascii.eqb c "e" || Ascii.eqb c "E")%char then
        let '(negative, digits) :=
          match s' with
          | String "-"%char t => (true, t)
          | String "+"%char t => (false, t)
          | _ => (false, s')
          end in
        match readDigits digits 0 0 with
        | (v, count, EmptyString) =>
            if 0 <? count then Some (if negative then - v else v) else None
        | _ => None
        end
      else None
  end.

(** [StrUnsignedDecimalLiteral]: [Infinity], or digits with an optional
    fraction and an optional exponent; [None] when the text is no such
    literal. *)
Definition unsignedDecimal (negative : bool) (s : string) : option JS.number :=
  if String.eqb s "Infinity" then Some (signed negative infinity)
  else
    let '(int, intCount, afterInt) := readDigits s 0 0 in
    let '(mantissa, fracCount, afterFrac) :=
      match afterInt with
      | String "."%char t => readDigits t int 0
      | _ => (int, 0, afterInt)
      end in
    if 0 <? intCount + fracCount then
      match readExponent afterFrac with
      | Some e =>
          Some (signed negative
                  (if mantissa =? 0 then 0%float
                   else nearest mantissa (e - fracCount)))
      | None => None
      end
    else None.

(** [StrNumericLiteral]: a signed decimal literal, or an unsigned binary,
    octal or hexadecimal integer. *)
Definition numericLiteral (s : string) : option JS.number :=
  match s with
  | String "0"%char (String x t) =>
      let radix :=
        if (Ascii.eqb x "x" || Ascii.eqb x "X")%char then Some 16
        else if (Ascii.eqb x "o" || Ascii.eqb x "O")%char then Some 8
        else if (Ascii.eqb x "b" || Ascii.eqb x "B")%char then Some 2
        else None in
      match radix with
      | Some r =>
          match readRadix r t 0 with
          | Some v => Some (if v =? 0 then 0%float else nearest v 0)
          | None => None
          end
      | None => unsignedDecimal false s
      end
  | String "-"%char t => unsignedDecimal true t
  | String "+"%char t => unsignedDecimal false t
  | _ => unsignedDecimal false s
  end.

(** [StringToNumber]: white space around the literal is dropped; the empty
    text is [0]; a text that is not a numeric literal is [NaN]. *)
Definition StringToNumber (s : string) : JS.number :=
  match JS.trim s with
  | EmptyString => 0%float
  | text =>
      match numericLiteral text with
      | Some x => x
      | None => nan
      end
  end.

End Coercion.

(** ** The input form ([part_001], lines 231 to 312) *)

Module ProjectInput.

(** The [value] of each of the three input elements. *)
Record t := mk {
  titleInputElement : string;
  descriptionInputElement : string;
  peopleInputElement : string
}.

End ProjectInput.

(** [undefined] is [None]. *)
Definition gatherUserInput (this : ProjectInput.t)
    : option (string * string * JS.number) :=
  let title := ProjectInput.titleInputElement this in
  let description := ProjectInput.descriptionInputElement this in
  let people := Coercion.StringToNumber (ProjectInput.peopleInputElement this) in
  let titleValidatable :=
    ValidatorConfig.mk (Str title) (Some true) None None None None in
  let descriptionValidatable :=
    ValidatorConfig.mk (Str description) (Some true) (Some 5%float) None None None in
  let peopleValidatable :=
    ValidatorConfig.mk (Num people) (Some true) None None
                       (Some 1%float) (Some 5%float) in
  let isValid :=
    forallb validate [titleValidatable; descriptionValidatable; peopleValidatable] in
  if isValid then Some (title, description, people) else None.

Definition clearInputs (this : ProjectInput.t) : ProjectInput.t :=
  ProjectInput.mk EmptyString EmptyString EmptyString.

(** ** Items and lists ([part_001], lines 4 to 43 and 77 to 183) *)

Definition status_eqb (a b : ProjectStatus) : bool :=
  match a, b with
  | ACTIVE, ACTIVE | FINISHED, FINISHED => true
  | _, _ => false
  end.

Module ProjectItem.

(** An item element: the project it was built for, the id given to the
    element ([None]: left as in the template), and the texts written into
    its [h2], [h3] and [p]. *)
Record t := mk {
  project : ref;
  elementId : option string;
  h2 : string;
  h3 : string;
  p : string
}.

End ProjectItem.

(** [new ProjectItem(hostId, project)] for the project [p] behind the
    reference [o]: the element gets the id when it is truthy, and
    [renderContent] writes the three texts. *)
Definition newProjectItem (o : ref) (p : Project.t) : ProjectItem.t :=
  ProjectItem.mk o
    (if String.eqb (Project.id p) EmptyString then None else Some (Project.id p))
    (Project.title p) (peopleCount p) (Project.description p).

Module ProjectList.

(** A list: its type, its [assignedProjects], the item elements in its
    [ul] ([None]: the [ul] is as in the template, nothing was rendered
    yet), and whether the [ul] carries the class [droppable]. *)
Record t := mk {
  type : ProjectStatus;
  assignedProjects : list ref;
  listItems : option (list ProjectItem.t);
  droppable : bool
}.

End ProjectList.

Module DataTransfer.

(** The drag data store: the formats set and their data, oldest first. *)
Record t := mk {
  data : list (string * string);
  effectAllowed : string
}.

Definition setData (format value : string) (dt : t) : t :=
  mk (List.filter (fun item => negb (String.eqb item.1 format)) (data dt)
      ++ [(format, value)])
     (effectAllowed dt).

(** The empty string when the format was not set. *)
Definition getData (format : string) (dt : t) : string :=
  match List.find (fun item => String.eqb item.1 format) (data dt) with
  | Some item => item.2
  | None => EmptyString
  end.

Definition types (dt : t) : list string := fst <$> data dt.

End DataTransfer.

Module DragEvent.

Record t := mk {
  dataTransfer : option DataTransfer.t;
  defaultPrevented : bool
}.

End DragEvent.

(** A handler's outcome: it returns, or it throws in the state it reached. *)
Inductive Result (A : Type) :=
| Returned (a : A)
| Thrown (e : Error) (a : A).

Arguments Returned {A} a.
Arguments Thrown {A} e a.

Section Lists.

Context {Listener : Type}.

(** [p.status === type] for the object behind [o]. *)
Definition hasStatus (type : ProjectStatus) (w : World Listener) (o : ref) : bool :=
  match objects w !! o with
  | Some p => status_eqb (Project.status p) type
  | None => false
  end.

(** [renderProjects]: the [ul] is emptied, then one item per assigned
    project is built and attached at the end. *)
Definition renderProjects (w : World Listener) (this : ProjectList.t)
    : ProjectList.t :=
  let children :=
    foldl (fun children o =>
             match objects w !! o with
             | Some p => children ++ [newProjectItem o p]
             | None => children
             end)
          [] (ProjectList.assignedProjects this) in
  ProjectList.mk (ProjectList.type this) (ProjectList.assignedProjects this)
                 (Some children) (ProjectList.droppable this).

(** The listener that [configure] registers: it keeps the projects of the
    list's type and renders them. *)
Definition onProjects (projects : ref) (w : World Listener)
    (this : ProjectList.t) : ProjectList.t :=
  renderProjects w
    (ProjectList.mk (ProjectList.type this)
       (List.filter (hasStatus (ProjectList.type this) w) (read projects w))
       (ProjectList.listItems this) (ProjectList.droppable this)).

(** [dragStartHandler]: the item's project id becomes the [text/plain]
    data.  Without a [dataTransfer] the handler throws. *)
Definition dragStartHandler (this : ProjectItem.t) (w : World Listener)
    (event : DragEvent.t) : Result DragEvent.t :=
  match DragEvent.dataTransfer event, objects w !! ProjectItem.project this with
  | Some dt, Some p =>
      let dt1 := DataTransfer.setData "text/plain" (Project.id p) dt in
      Returned
        (DragEvent.mk
           (Some (DataTransfer.mk (DataTransfer.data dt1) "move"))
           (DragEvent.defaultPrevented event))
  | _, _ => Thrown TypeError event
  end.

(** [dragOverHandler]: a drag whose first format is [text/plain] is
    accepted and the list is marked. *)
Definition dragOverHandler (this : ProjectList.t) (event : DragEvent.t)
    : ProjectList.t * DragEvent.t :=
  match DataTransfer.types <$> DragEvent.dataTransfer event with
  | Some (first :: _) =>
      if String.eqb first "text/plain" then
        (ProjectList.mk (ProjectList.type this) (ProjectList.assignedProjects this)
                        (ProjectList.listItems this) true,
         DragEvent.mk (DragEvent.dataTransfer event) true)
      else (this, event)
  | _ => (this, event)
  end.

Definition dragLeaveHandler (this : ProjectList.t) : ProjectList.t :=
  ProjectList.mk (ProjectList.type this) (ProjectList.assignedProjects this)
                 (ProjectList.listItems this) false.

End Lists.

(** ** Listeners that run *)

Section Subscribers.

Context {Listener S : Type}.

(** What a listener does to the state [S] of the subscribers when it is
    called with an array, in the world of the call. *)
Variable run : Listener -> ref -> World Listener -> S -> S.

(** The notification pass of the store, running each listener where the
    store only recorded the call. *)
Fixpoint forEachListenerRun (ls : list Listener) (w : World Listener) (s : S)
    : World Listener * S :=
  match ls with
  | [] => (w, s)
  | listener :: rest =>
      let '(snapshot, w1) := slice (projects w) w in
      let w2 := call listener snapshot w1 in
      forEachListenerRun rest w2 (run listener snapshot w2 s)
  end.

Definition addProjectRun (random : JS.number) (title description : string)
    (numPeople : JS.number) (w : World Listener) (s : S)
    : World Listener * S :=
  let w2 :=
    pushed (Project.mk (JS.Number_toString random) title description
                       numPeople ACTIVE) w in
  forEachListenerRun (listeners w2) w2 s.

Definition updateProjectRun (id : string) (status : ProjectStatus)
    (w : World Listener) (s : S) : Result (World Listener * S) :=
  match List.filter (hasId id w) (read (projects w) w) with
  | [] => Thrown TypeError (w, s)
  | project :: _ =>
      let w1 := assignStatus project status w in
      Returned (forEachListenerRun (listeners w1) w1 s)
  end.

End Subscribers.

(** ** The application ([part_001], lines 203 to 209 and 295 to 319) *)

(** The input form, the static [ProjectState.instance] and the two lists.
    A list's listener is named by the list's type. *)
Record App := mkApp {
  input : ProjectInput.t;
  instance : option (World ProjectStatus);
  activeList : ProjectList.t;
  finishedList : ProjectList.t
}.

(** [getInstance]: the store is made on first use and kept. *)
Definition getInstance (instance : option (World ProjectStatus))
    : World ProjectStatus * option (World ProjectStatus) :=
  match instance with
  | Some w => (w, instance)
  | None => (init, Some init)
  end.

(** The closure that the list of the given type registered. *)
Definition listener (type : ProjectStatus) (projects : ref)
    (w : World ProjectStatus) (lists : ProjectList.t * ProjectList.t)
    : ProjectList.t * ProjectList.t :=
  match type with
  | ACTIVE => (onProjects projects w lists.1, lists.2)
  | FINISHED => (lists.1, onProjects projects w lists.2)
  end.

(** [new ProjectList(type)]: the list subscribes to the store; nothing is
    rendered yet.  [marked] tells whether the template's [ul] carries the
    class [droppable]. *)
Definition newProjectList (type : ProjectStatus) (marked : bool)
    (instance : option (World ProjectStatus))
    : ProjectList.t * option (World ProjectStatus) :=
  let '(w, _) := getInstance instance in
  (ProjectList.mk type [] None marked, Some (addListener type w)).

(** The three constructors of the last lines of the file.  The form's
    initial values and the classes of the two [ul] come from the page. *)
Definition bootstrap (form : ProjectInput.t) (activeMarked finishedMarked : bool)
    : App :=
  let '(active, instance1) := newProjectList ACTIVE activeMarked None in
  let '(finished, instance2) := newProjectList FINISHED finishedMarked instance1 in
  mkApp form instance2 active finished.

(** [random] is the value that [Math.random()] returns if a project is
    added. *)
Definition submitHandler (random : JS.number) (app : App) : App :=
  match gatherUserInput (input app) with
  | Some (title, desc, people) =>
      let '(w, _) := getInstance (instance app) in
      let '(w', (active, finished)) :=
        addProjectRun listener random title desc people w
                      (activeList app, finishedList app) in
      mkApp (clearInputs (input app)) (Some w') active finished
  | None => app
  end.

(** [dropHandler] of the list [this]. *)
Definition dropHandler (this : ProjectList.t) (event : DragEvent.t) (app : App)
    : Result App :=
  match DragEvent.dataTransfer event with
  | None => Thrown TypeError app
  | Some dt =>
      let projectId := DataTransfer.getData "text/plain" dt in
      let '(w, instance1) := getInstance (instance app) in
      match updateProjectRun listener projectId (ProjectList.type this) w
                             (activeList app, finishedList app) with
      | Returned (w', (active, finished)) =>
          Returned (mkApp (input app) (Some w') active finished)
      | Thrown e _ =>
          Thrown e (mkApp (input app) instance1 (activeList app) (finishedList app))
      end
  end.

(** The states of the application: what the page's events produce after
    the start.  The user edits the inputs, submits the form, drags over
    and out of a list, and drops on a list. *)
Inductive reachableApp : App -> Prop :=
| app_bootstrap form activeMarked finishedMarked :
    reachableApp (bootstrap form activeMarked finishedMarked)
| app_edit form app :
    reachableApp app ->
    reachableApp (mkApp form (instance app) (activeList app) (finishedList app))
| app_submit random app :
    reachableApp app -> reachableApp (submitHandler random app)
| app_dragOver_active event app :
    reachableApp app ->
    reachableApp (mkApp (input app) (instance app)
                        (dragOverHandler (activeList app) event).1
                        (finishedList app))
| app_dragOver_finished event app :
    reachableApp app ->
    reachableApp (mkApp (input app) (instance app) (activeList app)
                        (dragOverHandler (finishedList app) event).1)
| app_dragLeave_active app :
    reachableApp app ->
    reachableApp (mkApp (input app) (instance app)
                        (dragLeaveHandler (activeList app)) (finishedList app))
| app_dragLeave_finished app :
    reachableApp app ->
    reachableApp (mkApp (input app) (instance app) (activeList app)
                        (dragLeaveHandler (finishedList app)))
| app_drop_active event app app' :
    reachableApp app ->
    dropHandler (activeList app) event app = Returned app' ->
    reachableApp app'
| app_drop_finished event app app' :
    reachableApp app ->
    dropHandler (finishedList app) event app = Returned app' ->
    reachableApp app'.

(** What an item shows: its element id and its three texts.  And what a
    list of the given type should show for a project list: one item per
    project of that status, in the order of the list, with the project's
    id as element id. *)
Definition view (item : ProjectItem.t) : option string * string * string * string :=
  (ProjectItem.elementId item, ProjectItem.h2 item, ProjectItem.h3 item,
   ProjectItem.p item).

Definition expected (type : ProjectStatus) (ps : list Project.t)
    : list (option string * string * string * string) :=
  (fun p => (Some (Project.id p), Project.title p, peopleCount p,
             Project.description p))
    <$> List.filter (fun p => status_eqb (Project.status p) type) ps.

(** The list shows the projects of its type; a list that has not rendered
    yet shows what the page had, and then there is no project. *)
Definition shows (this : ProjectList.t) (type : ProjectStatus)
    (ps : list Project.t) : Prop :=
  match ProjectList.listItems this with
  | Some children => view <$> children = expected type ps
  | None => ps = []
  end.

(** The items that [renderProjects] builds for a list of references. *)
Definition itemsOf {Listener} (w : World Listener) (l : list ref)
    : list ProjectItem.t :=
  omap (fun o => newProjectItem o <$> objects w !! o) l.

(** A list that is up to date with the store: it is assigned the store's
    elements of its type, in the store's order, and its [ul] holds their
    items, unless nothing was rendered yet and the store is empty. *)
Definition consistentList (w : World ProjectStatus) (type : ProjectStatus)
    (this : ProjectList.t) : Prop :=
  ProjectList.type this = type
  /\ ProjectList.assignedProjects this
     = List.filter (hasStatus type w) (read (projects w) w)
  /\ ((ProjectList.listItems this = None /\ read (projects w) w = [])
      \/ ProjectList.listItems this
         = Some (itemsOf w (ProjectList.assignedProjects this))).

(** The store exists, is in a state of a store, has the two lists as its
    listeners, and both lists are up to date. *)
Definition consistent (app : App) : Prop :=
  exists w,
    instance app = Some w
    /\ reachable w
    /\ listeners w = [ACTIVE; FINISHED]
    /\ consistentList w ACTIVE (activeList app)
    /\ consistentList w FINISHED (finishedList app).

(** A project that the form lets through. *)
Definition accepted (p : Project.t) : Prop :=
  allWhiteSpace (Project.title p) = false
  /\ allWhiteSpace (Project.description p) = false
  /\ ge (lengthOf (Project.description p)) 5 = true
  /\ ge (Project.people p) 1 = true
  /\ le (Project.people p) 5 = true.

(** *** A scenario of the application

    The page after the start with the example of the specification typed
    into the form, and after the form was submitted. *)

Definition page : App :=
  bootstrap (ProjectInput.mk "Build shed" "construct a garden shed" "2")
            false false.

Definition submitted : App := submitHandler 0.5 page.

(** The store of [shed] after its project was finished. *)
Definition finishedShed : World nat :=
  match updateProject "0.5" FINISHED shed with
  | Normal w => w
  | Throw _ w => w
  end.

(** The store of [submitted], the item that its active list shows, and a
    drag that carries nothing yet. *)
Definition submittedStore : World ProjectStatus :=
  addProject 0.5 "Build shed" "construct a garden shed" 2
    (addListener FINISHED (addListener ACTIVE init)).

Definition shedItem : ProjectItem.t :=
  newProjectItem 1%positive
    (Project.mk "0.5" "Build shed" "construct a garden shed" 2 ACTIVE).

Definition emptyDrag : DragEvent.t :=
  DragEvent.mk (Some (DataTransfer.mk [] "uninitialized")) false.

(** The configuration that the form builds for the description. *)
Definition descriptionConfig : ValidatorConfig.t :=
  ValidatorConfig.mk (Str "construct a garden shed") (Some true)
                     (Some 5%float) None None None.

(** A string that starts with a character that [trim] keeps. *)
Definition visible (s : string) : Prop :=
  exists c r, s = String c r /\ JS.isWhiteSpace c = false.

(** * Properties *)

(** ** Strings and numbers *)

Section Runtime.

Import JS.

Lemma trimEnd_visible c r :
  isWhiteSpace c = false -> exists t, trimEnd (String c r) = String c t.
Proof.
  intros Hc. simpl. destruct (trimEnd r) as [|c' t'].
  - rewrite Hc. by exists EmptyString.
  - by exists (String c' t').
Qed.

Lemma trim_visible s : visible s -> (0 < String.length (trim s))%nat.
Proof.
  intros (c & r & -> & Hc). unfold trim. cbn [trimStart]. rewrite Hc.
  destruct (trimEnd_visible c r Hc) as [t ->]. simpl. lia.
Qed.

Lemma visible_append s t : visible s -> visible (s +:+ t).
Proof.
  intros (c & r & -> & Hc). exists c, (r +:+ t). by split.
Qed.

Lemma digitChar_visible d : isWhiteSpace (digitChar d) = false.
Proof.
  destruct d as [|p|p]; try reflexivity.
  do 4 (try destruct p as [p|p|]; try reflexivity).
Qed.

Lemma decimalDigits_visible fuel : forall n acc,
  visible acc -> visible (decimalDigits fuel n acc).
Proof.
  induction fuel as [|fuel IH]; intros n acc Hacc; [done|].
  assert (visible (String (digitChar (n mod 10)) acc)) as Hd.
  { eexists _, _. split; [reflexivity | apply digitChar_visible]. }
  simpl. destruct (n / 10 =? 0); [done | by apply IH].
Qed.

Lemma decimal_visible n : visible (decimal n).
Proof.
  unfold decimal. cbn [decimalDigits].
  assert (visible (String (digitChar (n mod 10)) EmptyString)) as Hd.
  { eexists _, _. split; [reflexivity | apply digitChar_visible]. }
  destruct (n / 10 =? 0); [done | by apply decimalDigits_visible].
Qed.

Lemma substring_visible m s : visible s -> visible (substring 0 (S m) s).
Proof.
  intros (c & r & -> & Hc). exists c, (substring 0 m r). by split.
Qed.

Lemma layout_visible n k s : visible (layout n k s).
Proof.
  unfold layout. pose proof (decimal_visible s) as Hd.
  destruct ((k <=? n) && (n <=? 21)); [by apply visible_append|].
  destruct ((0 <? n) && (n <=? 21)) eqn:H2.
  { apply andb_prop in H2 as [Hn _]. apply Z.ltb_lt in Hn.
    destruct (Z.to_nat n) as [|m] eqn:Hm; [lia|].
    by apply visible_append, substring_visible. }
  destruct ((-6 <? n) && (n <=? 0)); [by eexists _, _|].
  destruct (k =? 1); [by apply visible_append|].
  by apply visible_append, substring_visible.
Qed.

Lemma positiveToString_visible x : visible (positiveToString x).
Proof.
  unfold positiveToString. destruct (is_infinity x); [by eexists _, _|].
  destruct (shortest _ _ _ _) as [[n k] s]. apply layout_visible.
Qed.

(** The decimal string of a number starts with a character that is not
    white space: a letter, a digit or a minus sign. *)
Lemma Number_toString_visible x : visible (Number_toString x).
Proof.
  unfold Number_toString.
  destruct (is_nan x); [by eexists _, _|].
  destruct (is_zero x); [by eexists _, _|].
  destruct (x <? 0)%float; [by eexists _, _ | apply positiveToString_visible].
Qed.

(** The strings of some numbers, as the language prints them. *)
Example Number_toString_integers :
  map Number_toString [0; 1; 2; 5; 100; 9007199254740992; 1e21; 1e22]%float
  = ["0"; "1"; "2"; "5"; "100"; "9007199254740992"; "1e+21"; "1e+22"].
Proof. reflexivity. Qed.

Example Number_toString_fractions :
  map Number_toString
      [0.5; 0.25; -2.5; 1 / 10; 1 / 10 + 2 / 10; 1 / 3; 1 / 10000000]%float
  = ["0.5"; "0.25"; "-2.5"; "0.1"; "0.30000000000000004";
     "0.3333333333333333"; "1e-7"].
Proof. reflexivity. Qed.

Example Number_toString_special :
  map Number_toString [nan; infinity; neg_infinity; neg_zero]%float
  = ["NaN"; "Infinity"; "-Infinity"; "0"].
Proof. reflexivity. Qed.

Example trim_examples :
  map trim ["  "; EmptyString; " a b "; "hi"]
  = [EmptyString; EmptyString; "a b"; "hi"].
Proof. reflexivity. Qed.

End Runtime.

(** ** The validator *)

Section Validator.

Import JS.

Lemma required_check_spec s :
  (0 <? String.length (trim s))%nat = negb (blank s).
Proof. unfold blank. by destruct (trim s). Qed.

Lemma required_check_number n :
  (0 <? String.length (trim (Number_toString n)))%nat = true.
Proof. apply Nat.ltb_lt, trim_visible, Number_toString_visible. Qed.

(** On every configuration whose bounds are absent or truthy, [validate]
    computes the contract of the specification. *)
Lemma validate_agrees config :
  seen (ValidatorConfig.minLength config) = true ->
  seen (ValidatorConfig.maxLength config) = true ->
  seen (ValidatorConfig.min config) = true ->
  seen (ValidatorConfig.max config) = true ->
  validate config = validate_spec config.
Proof.
  destruct config as [v req minL maxL mn mx]. simpl.
  intros HminL HmaxL Hmn Hmx.
  unfold validate, validate_spec, requiredPasses, lengthBoundPasses,
    rangeBoundPasses; simpl.
  destruct req as [[|]|], v as [s|n]; simpl;
    rewrite ?required_check_number, ?required_check_spec;
    destruct minL, maxL, mn, mx; simpl in *;
    rewrite ?HminL, ?HmaxL, ?Hmn, ?Hmx, ?andb_true_r; reflexivity.
Qed.

(** C10: [required] holds of every number, [0], negative numbers, [NaN] and
    the infinities included: the test is made on the number's decimal
    string, which is never blank. *)
Theorem validate_required_number (n : number) :
  validate (ValidatorConfig.mk (Num n) (Some true) None None None None) = true.
Proof. unfold validate; simpl. apply required_check_number. Qed.

(** C8: the four validator cases of the specification. *)
Theorem validate_specification_cases :
  validate (ValidatorConfig.mk (Str "  ") (Some true) None None None None) = false
  /\ validate (ValidatorConfig.mk (Str "hi") None (Some 5%float) None None None) = false
  /\ validate (ValidatorConfig.mk (Num 3) None None None (Some 1%float) (Some 5%float)) = true
  /\ validate (ValidatorConfig.mk (Num 6) None None None None (Some 5%float)) = false.
Proof. repeat split; reflexivity. Qed.

(** C1: a bound of zero is specified but not enforced.  On the value [-1]
    with [min: 0] the validator answers [true], where the contract of the
    specification answers [false]; likewise for [max: 0] on [1] and for
    [maxLength: 0] on a non-empty string. *)
Theorem validate_skips_zero_bound :
  (validate (ValidatorConfig.mk (Num (-1)) None None None (Some 0%float) None) = true
   /\ validate_spec (ValidatorConfig.mk (Num (-1)) None None None (Some 0%float) None) = false)
  /\ (validate (ValidatorConfig.mk (Num 1) None None None None (Some 0%float)) = true
      /\ validate_spec (ValidatorConfig.mk (Num 1) None None None None (Some 0%float)) = false)
  /\ (validate (ValidatorConfig.mk (Str "abc") None None (Some 0%float) None None) = true
      /\ validate_spec (ValidatorConfig.mk (Str "abc") None None (Some 0%float) None None) = false).
Proof. repeat split; reflexivity. Qed.

End Validator.

(** ** The people label *)

Section PeopleCount.

Import JS.

Lemma SFeqb_finite f m e :
  SFeqb f (S754_finite false m e) = true -> f = S754_finite false m e.
Proof.
  unfold SFeqb, SFcompare.
  destruct f as [[|]|[|]| |[|] m' e']; try discriminate.
  destruct (e' ?= e) eqn:He; try discriminate.
  destruct (PosDef.Pos.compare_cont Eq m' m) eqn:Hm; try discriminate.
  intros _. apply Z.compare_eq in He. apply Pos.compare_eq in Hm. by subst.
Qed.

(** [x === 1] holds of the number [1] only. *)
Lemma strictly_one x : (x =? 1)%float = true <-> x = 1%float.
Proof.
  split; [|by intros ->].
  rewrite FloatAxioms.eqb_spec. intros H.
  apply FloatAxioms.Prim2SF_inj.
  change (Prim2SF 1) with (S754_finite false 4503599627370496 (-52)) in *.
  by apply SFeqb_finite.
Qed.

(** C9: the label is "1 person assigned" when the people count is exactly
    [1], and otherwise the decimal string of the count followed by
    " people assigned". *)
Theorem peopleCount_spec (project : Project.t) :
  (Project.people project = 1%float ->
     peopleCount project = "1 person assigned")
  /\ (Project.people project <> 1%float ->
        peopleCount project
        = Number_toString (Project.people project) +:+ " people assigned").
Proof.
  unfold peopleCount. split.
  - intros ->. reflexivity.
  - intros Hne. destruct (Project.people project =? 1)%float eqn:H; [|done].
    by apply strictly_one in H.
Qed.

Lemma peopleCount_spec_witness :
  peopleCount (Project.mk "0.5" "Build shed" "construct a garden shed" 1 ACTIVE)
    = "1 person assigned"
  /\ peopleCount (Project.mk "0.5" "Build shed" "construct a garden shed" 2 ACTIVE)
    = "2 people assigned".
Proof.
  split.
  - apply (proj1 (peopleCount_spec (Project.mk "0.5" "Build shed" "construct a garden shed" 1 ACTIVE))).
    reflexivity.
  - apply (proj2 (peopleCount_spec (Project.mk "0.5" "Build shed" "construct a garden shed" 2 ACTIVE))).
    intros H%strictly_one. discriminate H.
Defined.

End PeopleCount.

(** ** The store *)

Section StoreProperties.

Context {Listener : Type}.
Implicit Types (w : World Listener) (a o : ref) (l : list ref).

(** *** Reading the heap *)

Lemma read_Some w a l : arrays w !! a = Some l -> read a w = l.
Proof. unfold read. by intros ->. Qed.

Lemma read_is_Some w a : is_Some (arrays w !! a) -> arrays w !! a = Some (read a w).
Proof. intros [l Hl]. by rewrite (read_Some _ _ _ Hl). Qed.

Lemma fresh_array w a : is_Some (arrays w !! a) -> fresh (dom (arrays w)) <> a.
Proof.
  intros Ha%elem_of_dom E. rewrite <- E in Ha.
  by apply (is_fresh (dom (arrays w))).
Qed.

Lemma fresh_array_None w : arrays w !! fresh (dom (arrays w)) = None.
Proof. apply not_elem_of_dom, is_fresh. Qed.

Lemma fresh_object_None w : objects w !! fresh (dom (objects w)) = None.
Proof. apply not_elem_of_dom, is_fresh. Qed.

(** Reading through a heap that agrees on the elements read. *)
Lemma omap_lookup_ext (m1 m2 : gmap ref Project.t) l :
  (forall o, o ∈ l -> m1 !! o = m2 !! o) ->
  omap (fun o => m1 !! o) l = omap (fun o => m2 !! o) l.
Proof.
  induction l as [|o l IH]; intros H; [done|]. simpl.
  rewrite (H o) by left.
  destruct (m2 !! o); [f_equal|]; apply IH; intros o' Ho'; apply H; by right.
Qed.

(** *** One notification pass *)

(** What [forEach] does from a world whose store array exists: it calls the
    listeners in order, each with a new array that copies the store's, and
    touches nothing else. *)
Lemma forEachListener_spec (ls : list Listener) : forall w,
  is_Some (arrays w !! projects w) ->
  exists snapshots : list ref,
    length snapshots = length ls
    /\ NoDup snapshots
    /\ calls (forEachListener ls w) = calls w ++ zip_with Call ls snapshots
    /\ objects (forEachListener ls w) = objects w
    /\ listeners (forEachListener ls w) = listeners w
    /\ projects (forEachListener ls w) = projects w
    /\ (forall a, a ∈ snapshots ->
          arrays w !! a = None
          /\ arrays (forEachListener ls w) !! a = Some (read (projects w) w))
    /\ (forall a, a ∉ snapshots ->
          arrays (forEachListener ls w) !! a = arrays w !! a).
Proof.
  induction ls as [|listener rest IH]; intros w Hp.
  { exists []. simpl. rewrite app_nil_r.
    split_and!; [done|constructor|done|done|done|done| |done].
    by intros a Ha%elem_of_nil. }
  cbn [forEachListener slice newArray].
  set (a0 := fresh (dom (arrays w))).
  set (w1 := call listener a0 _).
  assert (a0 <> projects w) as Hne by by apply fresh_array.
  assert (arrays w1 !! a0 = Some (read (projects w) w)) as Ha0
    by (simpl; apply lookup_insert_eq).
  assert (forall a, a <> a0 -> arrays w1 !! a = arrays w !! a) as Hframe
    by (intros a Ha; simpl; by apply lookup_insert_ne).
  assert (read (projects w1) w1 = read (projects w) w) as Hread.
  { unfold read at 1. simpl. by rewrite lookup_insert_ne. }
  destruct (IH w1) as (snaps & Hlen & Hnd & Hcalls & Hobj & Hls & Hprj & Hnew & Hold).
  { simpl. by rewrite lookup_insert_ne. }
  assert (a0 ∉ snaps) as Hfresh.
  { intros [E _]%Hnew. by rewrite Ha0 in E. }
  exists (a0 :: snaps). split_and!.
  - simpl. by rewrite Hlen.
  - by constructor.
  - rewrite Hcalls. simpl. by rewrite <- app_assoc.
  - by rewrite Hobj.
  - by rewrite Hls.
  - by rewrite Hprj.
  - intros a [->|Ha]%elem_of_cons.
    + split; [apply fresh_array_None|]. by rewrite Hold.
    + destruct (Hnew a Ha) as [Hnone Hsome]. rewrite Hread in Hsome.
      split; [|done]. rewrite <- Hframe; [done|]. by intros ->.
  - intros a [Hne0 Hnin]%not_elem_of_cons. rewrite Hold by done. by apply Hframe.
Qed.

(** *** The invariant *)

Lemma wf_init : wf (@init Listener).
Proof.
  split; unfold init; simpl.
  - rewrite lookup_singleton_eq. by eexists.
  - intros a l o [_ <-]%lookup_singleton_Some Ho. by apply elem_of_nil in Ho.
  - unfold read. simpl. rewrite lookup_singleton_eq. constructor.
Qed.

Lemma wf_addListener w listenerFn : wf w -> wf (addListener listenerFn w).
Proof. intros [Hp He Hn]. by split. Qed.

Lemma wf_notify w : wf w -> wf (notify w).
Proof.
  intros [Hp He Hn].
  destruct (forEachListener_spec (listeners w) w Hp)
    as (snaps & _ & _ & _ & Hobj & _ & Hprj & Hnew & Hold).
  fold (notify w) in *.
  assert (projects w ∉ snaps) as Hnin.
  { intros [E _]%Hnew. rewrite E in Hp. by destruct Hp. }
  assert (read (projects (notify w)) (notify w) = read (projects w) w) as Hread.
  { unfold read. by rewrite Hprj, Hold. }
  split.
  - rewrite Hprj, Hold; done.
  - intros a l o Ha Ho. rewrite Hobj.
    destruct (decide (a ∈ snaps)) as [Hin|Hout].
    + destruct (Hnew a Hin) as [_ E]. rewrite E in Ha. injection Ha as <-.
      apply (He (projects w) (read (projects w) w)); [by apply read_is_Some | done].
    + rewrite Hold in Ha by done. by apply (He a l).
  - by rewrite Hread.
Qed.

Lemma read_pushed p w :
  is_Some (arrays w !! projects w) ->
  read (projects (pushed p w)) (pushed p w)
  = read (projects w) w ++ [fresh (dom (objects w))].
Proof.
  intros [l Hl]. unfold pushed, read; simpl.
  rewrite lookup_alter_eq, Hl. reflexivity.
Qed.

Lemma wf_pushed p w : wf w -> wf (pushed p w).
Proof.
  intros [Hp He Hn].
  pose proof (read_pushed p w Hp) as Hread.
  pose proof (fresh_object_None w) as Hfresh.
  split.
  - unfold pushed; simpl. by apply lookup_alter_is_Some.
  - intros a l o Ha Ho. unfold pushed in *; simpl in *.
    apply lookup_insert_is_Some'.
    apply lookup_alter_Some in Ha as [[<- (l0 & Hl0 & ->)]|[_ Ha]].
    + apply elem_of_app in Ho as [Ho|Ho%list_elem_of_singleton]; [|by left].
      right. by apply (He (projects w) l0).
    + right. by apply (He a l).
  - rewrite Hread. apply NoDup_app. split_and!; [done| |apply NoDup_singleton].
    intros o Ho ->%list_elem_of_singleton.
    destruct (He (projects w) (read (projects w) w) _ (read_is_Some _ _ Hp) Ho) as [q Hq].
    by rewrite Hfresh in Hq.
Qed.

Lemma addProject_unfold random title description numPeople w :
  addProject random title description numPeople w
  = notify (pushed (Project.mk (JS.Number_toString random) title description
                               numPeople ACTIVE) w).
Proof. reflexivity. Qed.

Lemma wf_addProject random title description numPeople w :
  wf w -> wf (addProject random title description numPeople w).
Proof. intros H. rewrite addProject_unfold. by apply wf_notify, wf_pushed. Qed.

Lemma wf_assignStatus o s w : wf w -> wf (assignStatus o s w).
Proof.
  intros [Hp He Hn]. split; try done.
  intros a l o' Ha Ho'. simpl. apply lookup_alter_is_Some. by apply (He a l).
Qed.

Lemma wf_updateProject id status w w' :
  wf w -> updateProject id status w = Normal w' -> wf w'.
Proof.
  intros Hwf. unfold updateProject.
  destruct (List.filter _ _) as [|o rest]; [done|].
  intros [= <-]. by apply wf_notify, wf_assignStatus.
Qed.

(** Every state of a store satisfies the invariant. *)
Lemma reachable_wf w : reachable w -> wf w.
Proof.
  induction 1 as [|l w _ IH|r t d n w _ IH|id s w w' _ IH Hupd].
  - apply wf_init.
  - by apply wf_addListener.
  - by apply wf_addProject.
  - by apply (wf_updateProject id s w).
Qed.

(** *** What a notification pass leaves alone *)

Lemma notify_frame w a :
  wf w -> is_Some (arrays w !! a) ->
  arrays (notify w) !! a = arrays w !! a.
Proof.
  intros [Hp _ _] Ha.
  destruct (forEachListener_spec (listeners w) w Hp)
    as (snaps & _ & _ & _ & _ & _ & _ & Hnew & Hold).
  apply Hold. intros [E _]%Hnew. rewrite E in Ha. by destruct Ha.
Qed.

Lemma notify_objects w : wf w -> objects (notify w) = objects w.
Proof.
  intros [Hp _ _].
  by destruct (forEachListener_spec (listeners w) w Hp)
    as (snaps & _ & _ & _ & Hobj & _).
Qed.

Lemma notify_projects w : wf w -> projects (notify w) = projects w.
Proof.
  intros [Hp _ _].
  by destruct (forEachListener_spec (listeners w) w Hp)
    as (snaps & _ & _ & _ & _ & _ & Hprj & _).
Qed.

Lemma notify_listeners w : wf w -> listeners (notify w) = listeners w.
Proof.
  intros [Hp _ _].
  by destruct (forEachListener_spec (listeners w) w Hp)
    as (snaps & _ & _ & _ & _ & Hls & _).
Qed.

Lemma items_notify w a :
  wf w -> is_Some (arrays w !! a) -> items a (notify w) = items a w.
Proof.
  intros Hwf Ha. unfold items, read.
  by rewrite notify_frame, notify_objects.
Qed.

Lemma projectList_notify w : wf w -> projectList (notify w) = projectList w.
Proof.
  intros Hwf. unfold projectList. rewrite notify_projects by done.
  apply items_notify; [done | apply Hwf].
Qed.

(** The pass made by a mutation that started in [w0] and reached [w]
    without touching listeners, calls or the set of allocated arrays. *)
Lemma notify_notified w0 w :
  wf w ->
  calls w = calls w0 -> listeners w = listeners w0 ->
  (forall a, arrays w !! a = None -> arrays w0 !! a = None) ->
  notified w0 (notify w).
Proof.
  intros Hwf Hc Hl Ha. pose proof Hwf as [Hp _ _].
  destruct (forEachListener_spec (listeners w) w Hp)
    as (snaps & Hlen & Hnd & Hcalls & _ & _ & Hprj & Hnew & Hold).
  fold (notify w) in *.
  assert (projects w ∉ snaps) as Hnin.
  { intros [E _]%Hnew. rewrite E in Hp. by destruct Hp. }
  exists snaps. rewrite <- Hc, <- Hl. split_and!; try done.
  intros a Hin. destruct (Hnew a Hin) as [Hnone Hsome]. split_and!.
  - rewrite Hprj. by intros ->.
  - by apply Ha.
  - rewrite Hsome. f_equal. unfold read. by rewrite Hprj, Hold.
  - unfold projectList, items, read at 1. rewrite Hsome. simpl.
    unfold read. by rewrite Hprj, Hold.
Qed.

(** *** [addProject] *)

Lemma items_fresh_object p w l :
  (forall o, o ∈ l -> is_Some (objects w !! o)) ->
  omap (fun o => <[fresh (dom (objects w)) := p]> (objects w) !! o) l
  = omap (fun o => objects w !! o) l.
Proof.
  intros Hlive. apply omap_lookup_ext. intros o Ho.
  apply lookup_insert_ne. intros <-.
  destruct (Hlive _ Ho) as [q Hq]. by rewrite fresh_object_None in Hq.
Qed.

Lemma projectList_pushed p w :
  wf w -> projectList (pushed p w) = projectList w ++ [p].
Proof.
  intros [Hp He Hn]. unfold projectList, items.
  rewrite read_pushed by done. rewrite omap_app.
  change (projects (pushed p w)) with (projects w).
  change (objects (pushed p w)) with (<[fresh (dom (objects w)) := p]> (objects w)).
  rewrite items_fresh_object.
  - simpl. by rewrite lookup_insert_eq.
  - intros o Ho. by apply (He (projects w) _ _ (read_is_Some _ _ Hp)).
Qed.

(** An array other than the store's keeps its elements and their
    projects across [addProject]. *)
Lemma items_pushed_frame p w a :
  wf w -> a <> projects w -> is_Some (arrays w !! a) ->
  arrays (pushed p w) !! a = arrays w !! a
  /\ items a (pushed p w) = items a w.
Proof.
  intros [Hp He Hn] Hne Ha.
  assert (arrays (pushed p w) !! a = arrays w !! a) as Harr.
  { unfold pushed; simpl. by apply lookup_alter_ne. }
  split; [done|]. unfold items, read. rewrite Harr.
  change (objects (pushed p w)) with (<[fresh (dom (objects w)) := p]> (objects w)).
  apply items_fresh_object. intros o Ho.
  apply (He a _ _ (read_is_Some _ _ Ha) Ho).
Qed.

Lemma projectList_addProject random title description numPeople w :
  wf w ->
  projectList (addProject random title description numPeople w)
  = projectList w
    ++ [Project.mk (JS.Number_toString random) title description numPeople ACTIVE].
Proof.
  intros Hwf. rewrite addProject_unfold.
  rewrite projectList_notify by by apply wf_pushed.
  by apply projectList_pushed.
Qed.

(** C4: [addProject] appends one project, built from the arguments and
    [ACTIVE], at the end of the store's list; the projects stored before
    keep their values and positions, and the length grows by one. *)
Theorem addProject_appends random title description numPeople
    (w : World Listener) :
  reachable w ->
  projectList (addProject random title description numPeople w)
  = projectList w
    ++ [Project.mk (JS.Number_toString random) title description numPeople ACTIVE]
  /\ length (projectList (addProject random title description numPeople w))
     = S (length (projectList w)).
Proof.
  intros Hwf%reachable_wf. rewrite projectList_addProject by done.
  split; [done|]. rewrite length_app. simpl. lia.
Qed.

(** C5, as amended: the id of a new project is the decimal string of the
    value that [Math.random()] returned in that call.  After a run of
    [addProject] calls the ids in the store are the ids before, followed by
    the strings of the draws in order; they are pairwise distinct exactly
    when those strings are distinct from one another and from the ids that
    were stored before. *)
Theorem addProjects_ids args : forall w : World Listener,
  reachable w ->
  ids (addProjects args w) = ids w ++ drawn args
  /\ (NoDup (ids (addProjects args w)) <->
      NoDup (ids w) /\ (forall i, i ∈ ids w -> i ∉ drawn args) /\ NoDup (drawn args)).
Proof.
  assert (forall w : World Listener,
            reachable w -> ids (addProjects args w) = ids w ++ drawn args) as Hids.
  { induction args as [|[[[random title] description] numPeople] args IH];
      intros w Hw.
    - simpl. by rewrite app_nil_r.
    - change (addProjects ((random, title, description, numPeople) :: args) w)
        with (addProjects args (addProject random title description numPeople w)).
      rewrite IH by by constructor.
      unfold ids at 1. rewrite projectList_addProject by by apply reachable_wf.
      rewrite fmap_app. unfold drawn; simpl. by rewrite <- app_assoc. }
  intros w Hw. split; [by apply Hids|].
  rewrite Hids by done. apply NoDup_app.
Qed.

(** *** [updateProject] *)

Lemma hasId_true id w o :
  hasId id w o = true <-> exists p, objects w !! o = Some p /\ Project.id p = id.
Proof.
  unfold hasId. destruct (objects w !! o) as [p|].
  - rewrite String.eqb_eq. split; [by exists p | by intros (? & [= <-] & ?)].
  - split; [done | by intros (? & ? & _)].
Qed.

Lemma hasId_unknown id w l :
  id ∉ Project.id <$> omap (fun o => objects w !! o) l ->
  List.filter (hasId id w) l = [].
Proof.
  induction l as [|o l IH]; [done|]. simpl.
  destruct (hasId id w o) eqn:Ho.
  - apply hasId_true in Ho as (p & Hp & Hid). rewrite Hp. simpl.
    intros []. rewrite <- Hid. by left.
  - intros H. apply IH. intros Hin. apply H.
    destruct (objects w !! o); [by right | done].
Qed.

(** The first element that a filter keeps, and what comes before it. *)
Lemma filter_first {A} (f : A -> bool) (xs : list A) x rest :
  List.filter f xs = x :: rest ->
  exists pre post,
    xs = pre ++ x :: post /\ (forall y, y ∈ pre -> f y = false) /\ f x = true.
Proof.
  induction xs as [|y xs IH]; [done|]. simpl. destruct (f y) eqn:Hy.
  - intros [= -> _]. exists [], xs. split_and!; [done| |done].
    by intros ? ?%elem_of_nil.
  - intros (pre & post & -> & Hpre & Hx)%IH. exists (y :: pre), post.
    split_and!; [done| |done].
    intros z [->|Hz]%elem_of_cons; [done | by apply Hpre].
Qed.

Lemma hasId_known id w l :
  id ∈ Project.id <$> omap (fun o => objects w !! o) l ->
  List.filter (hasId id w) l <> [].
Proof.
  intros (p & -> & (o & Ho & Hp)%list_elem_of_omap)%list_elem_of_fmap Hnil.
  assert (o ∈ List.filter (hasId (Project.id p) w) l) as Hin.
  { apply list_elem_of_In, filter_In. split; [by apply list_elem_of_In|].
    apply hasId_true. by exists p. }
  rewrite Hnil in Hin. by apply elem_of_nil in Hin.
Qed.

(** C2: with an id that no stored project has, the lookup of
    [updateProject] matches nothing and the call throws: it neither
    completes nor returns a value.  Nothing has changed when it throws: the
    project list is as before and no listener was called. *)
Theorem updateProject_unknown_id (w : World Listener) id status :
  id ∉ ids w ->
  List.filter (hasId id w) (read (projects w) w) = []
  /\ updateProject id status w = Throw TypeError w.
Proof.
  intros Hid%hasId_unknown. unfold updateProject. by rewrite Hid.
Qed.

(** C3: with an id that some stored project has, [updateProject] completes
    and sets the status of the first project with that id.  That project
    keeps its id, title, description and people; the projects before and
    after it are unchanged, and so are the length and the order of the
    list. *)
Theorem updateProject_sets_status (w : World Listener) id newStatus :
  reachable w -> id ∈ ids w ->
  exists w' before p after,
    updateProject id newStatus w = Normal w'
    /\ projectList w = before ++ p :: after
    /\ Project.id p = id
    /\ (forall q, q ∈ before -> Project.id q <> id)
    /\ projectList w'
       = before
         ++ Project.mk (Project.id p) (Project.title p) (Project.description p)
                       (Project.people p) newStatus
         :: after
    /\ length (projectList w') = length (projectList w).
Proof.
  intros Hwf%reachable_wf Hid. pose proof Hwf as [Hp He Hn].
  unfold updateProject.
  destruct (List.filter _ _) as [|o rest] eqn:Hf; [by apply hasId_known in Hid|].
  apply filter_first in Hf as (l1 & l2 & Hl & Hl1 & (p & Ho & Hpid)%hasId_true).
  rewrite Hl in Hn. apply NoDup_app in Hn as (_ & Hl1o & [Hol2 _]%NoDup_cons).
  set (w1 := assignStatus o newStatus w).
  exists (notify w1), (omap (fun o' => objects w !! o') l1), p,
    (omap (fun o' => objects w !! o') l2).
  assert (projectList w
          = omap (fun o' => objects w !! o') l1
            ++ p :: omap (fun o' => objects w !! o') l2) as Hlist.
  { unfold projectList, items. rewrite Hl, omap_app. simpl. by rewrite Ho. }
  assert (projectList (notify w1)
          = omap (fun o' => objects w !! o') l1
            ++ Project.mk (Project.id p) (Project.title p) (Project.description p)
                          (Project.people p) newStatus
            :: omap (fun o' => objects w !! o') l2) as Hlist'; last first.
  { split_and!; [done|done|done| |done|].
    - intros q (o' & Ho' & Hq)%list_elem_of_omap Hqid.
      assert (hasId id w o' = true) as Habs by (apply hasId_true; by exists q).
      by rewrite Hl1 in Habs.
    - rewrite Hlist, Hlist', !length_app. reflexivity. }
  - rewrite projectList_notify by by apply wf_assignStatus.
    unfold projectList, items.
    change (read (projects w1) w1) with (read (projects w) w).
    change (objects w1) with (alter (Project.set_status newStatus) o (objects w)).
    rewrite Hl, omap_app. simpl. rewrite lookup_alter_eq, Ho. simpl.
    f_equal; [|f_equal]; apply omap_lookup_ext; intros o' Ho';
      apply lookup_alter_ne; intros <-; [|done].
    apply (Hl1o o); [done | by left].
Qed.

(** *** Notifications *)

Lemma addProject_notified random title description numPeople w :
  wf w -> notified w (addProject random title description numPeople w).
Proof.
  intros Hwf. rewrite addProject_unfold.
  apply notify_notified; [by apply wf_pushed|done|done|].
  intros a. unfold pushed; simpl. by rewrite lookup_alter_None.
Qed.

Lemma updateProject_notified id status w :
  wf w -> id ∈ ids w ->
  exists w', updateProject id status w = Normal w' /\ notified w w'.
Proof.
  intros Hwf Hid. unfold updateProject.
  destruct (List.filter _ _) as [|o rest] eqn:Hf; [by apply hasId_known in Hid|].
  eexists. split; [done|].
  apply notify_notified; [by apply wf_assignStatus|done..].
Qed.

(** The listeners of a store are those that [addListener] was called
    with, in the order of the calls. *)
Lemma registered_reachable ls w : registered ls w -> reachable w.
Proof.
  induction 1 as [|l ls w _ IH|r t d n ls w _ IH|id s ls w w' _ IH Hu].
  - constructor.
  - by constructor.
  - by constructor.
  - by apply (reach_updateProject id s w w').
Qed.

Lemma registered_listeners ls w : registered ls w -> listeners w = ls.
Proof.
  induction 1 as [|l ls w Hr IH|r t d n ls w Hr IH|id s ls w w' Hr IH Hu].
  - done.
  - simpl. by rewrite IH.
  - rewrite addProject_unfold, notify_listeners; [done|].
    by apply wf_pushed, reachable_wf, (registered_reachable ls).
  - revert Hu. unfold updateProject.
    destruct (List.filter _ _) as [|o rest]; [done|]. intros [= <-].
    rewrite notify_listeners; [done|].
    by apply wf_assignStatus, reachable_wf, (registered_reachable ls).
Qed.

(** Every state of a store has such a history of registrations. *)
Lemma reachable_registered w : reachable w -> exists ls, registered ls w.
Proof.
  induction 1 as [|l w _ [ls IH]|r t d n w _ [ls IH]|id s w w' _ [ls IH] Hu].
  - exists []. constructor.
  - exists (ls ++ [l]). by constructor.
  - exists ls. by constructor.
  - exists ls. by apply (registered_updateProject id s ls w w').
Qed.

(** C6: each mutation makes one notification pass over the listeners in
    the order in which they were registered.  In a state of the store on
    which [addListener] was called with the listeners [ls], in that order,
    these are the store's listeners; [addProject], and [updateProject]
    with an id that some stored project has, call every one of them once,
    in the order of [ls], each with a new array that holds the store's
    current elements and is not the store's own array. *)
Theorem mutation_notifies (ls : list Listener) (w : World Listener) :
  registered ls w ->
  listeners w = ls
  /\ (forall random title description numPeople,
        calledInOrder ls w (addProject random title description numPeople w))
  /\ (forall id status,
        id ∈ ids w ->
        exists w',
          updateProject id status w = Normal w' /\ calledInOrder ls w w').
Proof.
  intros Hr. pose proof (registered_listeners ls w Hr) as Hls.
  pose proof (reachable_wf w (registered_reachable ls w Hr)) as Hwf.
  split; [done|]. split.
  - intros random title description numPeople. rewrite <- Hls.
    exact (addProject_notified random title description numPeople w Hwf).
  - intros id status Hid. rewrite <- Hls.
    exact (updateProject_notified id status w Hwf Hid).
Qed.

(** A listener that writes to the array it was given leaves the store's
    array as it was: the two are different arrays. *)
Lemma push_snapshot_keeps_store w a o :
  a <> projects w ->
  read (projects (push a o w)) (push a o w) = read (projects w) w.
Proof.
  intros Hne. unfold read; simpl. by rewrite lookup_alter_ne.
Qed.

Context `{!EqDecision Listener}.

(** The calls that a pass makes to the listener registered last, when it is
    registered only once. *)
Lemma filter_last_listener (ls : list Listener) listener : forall snapshots,
  listener ∉ ls ->
  length snapshots = length (ls ++ [listener]) ->
  exists a,
    a ∈ snapshots
    /\ filter (fun e => event_listener e = listener)
              (zip_with Call (ls ++ [listener]) snapshots)
       = [Call listener a].
Proof.
  induction ls as [|x ls IH]; intros snaps Hnin Hlen.
  - destruct snaps as [|a [|? ?]]; try done. exists a. split; [by left|].
    simpl. rewrite filter_cons_True by done. by rewrite filter_nil.
  - destruct snaps as [|a0 snaps]; [done|].
    apply not_elem_of_cons in Hnin as [Hne Hnin].
    destruct (IH snaps Hnin) as (a & Ha & Hf); [by injection Hlen|].
    exists a. split; [by right|]. simpl.
    rewrite filter_cons_False by (simpl; congruence). done.
Qed.

(** C7: a listener that is registered, and was not before, is called
    exactly twice by two consecutive [addProject] calls.  The array of the
    first call holds the projects stored before and the first new project;
    it is not touched by the second call; the array of the second call
    holds all of these and the second new project. *)
Theorem two_addProject_notifications (w : World Listener) listener
    random1 title1 description1 numPeople1
    random2 title2 description2 numPeople2 :
  reachable w -> listener ∉ listeners w ->
  let w2 := addProject random1 title1 description1 numPeople1
              (addListener listener w) in
  let w3 := addProject random2 title2 description2 numPeople2 w2 in
  exists new a1 a2,
    calls w3 = calls w ++ new
    /\ filter (fun e => event_listener e = listener) new
       = [Call listener a1; Call listener a2]
    /\ items a1 w2
       = projectList w
         ++ [Project.mk (JS.Number_toString random1) title1 description1
                        numPeople1 ACTIVE]
    /\ items a1 w3 = items a1 w2
    /\ items a2 w3
       = items a1 w3
         ++ [Project.mk (JS.Number_toString random2) title2 description2
                        numPeople2 ACTIVE].
Proof.
  intros Hw Hnin w2 w3.
  assert (reachable (addListener listener w)) as Hw1 by by constructor.
  assert (reachable w2) as Hw2 by by constructor.
  pose proof (reachable_wf _ Hw1) as Hwf1. pose proof (reachable_wf _ Hw2) as Hwf2.
  destruct (addProject_notified random1 title1 description1 numPeople1 _ Hwf1)
    as (snaps1 & Hcalls1 & Hlen1 & _ & Hnew1).
  destruct (addProject_notified random2 title2 description2 numPeople2 _ Hwf2)
    as (snaps2 & Hcalls2 & Hlen2 & _ & Hnew2).
  fold w2 in Hcalls1, Hnew1. fold w3 in Hcalls2, Hnew2.
  assert (listeners w2 = listeners w ++ [listener]) as Hls2.
  { unfold w2. rewrite addProject_unfold, notify_listeners; [done|].
    by apply wf_pushed. }
  rewrite Hls2 in Hcalls2, Hlen2.
  change (listeners (addListener listener w)) with (listeners w ++ [listener])
    in Hcalls1, Hlen1.
  change (calls (addListener listener w)) with (calls w) in Hcalls1.
  destruct (filter_last_listener _ _ snaps1 Hnin Hlen1) as (a1 & Ha1 & Hf1).
  destruct (filter_last_listener _ _ snaps2 Hnin Hlen2) as (a2 & Ha2 & Hf2).
  destruct (Hnew1 a1 Ha1) as (Hne1 & _ & Harr1 & Hitems1).
  destruct (Hnew2 a2 Ha2) as (_ & _ & _ & Hitems2).
  assert (projectList w2
          = projectList w
            ++ [Project.mk (JS.Number_toString random1) title1 description1
                           numPeople1 ACTIVE]) as Hlist2.
  { unfold w2. by rewrite projectList_addProject. }
  assert (items a1 w3 = items a1 w2) as Hkeep.
  { unfold w3. rewrite addProject_unfold.
    destruct (items_pushed_frame
                (Project.mk (JS.Number_toString random2) title2 description2
                            numPeople2 ACTIVE) w2 a1) as [Harr Hit];
      [done|done|by rewrite Harr1|].
    rewrite items_notify; [done|by apply wf_pushed|].
    rewrite Harr, Harr1. by eexists. }
  eexists _, a1, a2. split_and!.
  - rewrite Hcalls2, Hcalls1, <- app_assoc. reflexivity.
  - rewrite filter_app, Hf1, Hf2. reflexivity.
  - by rewrite Hitems1.
  - done.
  - rewrite Hitems2, Hkeep, Hitems1. unfold w3.
    by rewrite projectList_addProject.
Qed.

End StoreProperties.

(** ** The scenario *)

Lemma reachable_shed : reachable shed.
Proof. apply reach_addProject, reach_addListener, reach_init. Qed.

Lemma ids_shed : ids shed = ["0.5"].
Proof. reflexivity. Qed.

Lemma updateProject_unknown_id_witness :
  ("0.7" ∉ ids shed)
  /\ List.filter (hasId "0.7" shed) (read (projects shed) shed) = []
  /\ updateProject "0.7" FINISHED shed = Throw TypeError shed.
Proof.
  assert ("0.7" ∉ ids shed) as H.
  { rewrite ids_shed. by intros [=]%list_elem_of_singleton. }
  split; [exact H | exact (updateProject_unknown_id shed "0.7" FINISHED H)].
Defined.

Lemma updateProject_sets_status_witness :
  reachable shed /\ "0.5" ∈ ids shed /\
  exists w' before p after,
    updateProject "0.5" FINISHED shed = Normal w'
    /\ projectList shed = before ++ p :: after
    /\ Project.id p = "0.5"
    /\ (forall q, q ∈ before -> Project.id q <> "0.5")
    /\ projectList w'
       = before
         ++ Project.mk (Project.id p) (Project.title p) (Project.description p)
                       (Project.people p) FINISHED
         :: after
    /\ length (projectList w') = length (projectList shed).
Proof.
  assert ("0.5" ∈ ids shed) as H by (rewrite ids_shed; by left).
  split; [exact reachable_shed|]. split; [exact H|].
  exact (updateProject_sets_status shed "0.5" FINISHED reachable_shed H).
Defined.

Lemma addProject_appends_witness :
  reachable shed /\
  projectList (addProject 0.25 "Paint shed" "paint the garden shed" 1 shed)
  = projectList shed
    ++ [Project.mk (JS.Number_toString 0.25) "Paint shed"
                   "paint the garden shed" 1 ACTIVE]
  /\ length (projectList (addProject 0.25 "Paint shed" "paint the garden shed" 1 shed))
     = S (length (projectList shed)).
Proof.
  split; [exact reachable_shed|].
  exact (addProject_appends 0.25 "Paint shed" "paint the garden shed" 1 shed
           reachable_shed).
Defined.

(** C5, as claimed, fails: a draw that repeats gives the new project the id
    of a stored one. *)
Lemma addProject_id_collision :
  reachable shed
  /\ ids shed = ["0.5"]
  /\ ids (addProject 0.5 "Paint shed" "paint the garden shed" 1 shed)
     = ["0.5"; "0.5"]
  /\ ~ NoDup (ids (addProject 0.5 "Paint shed" "paint the garden shed" 1 shed)).
Proof.
  split; [exact reachable_shed|].
  assert (ids (addProject 0.5 "Paint shed" "paint the garden shed" 1 shed)
          = ["0.5"; "0.5"]) as E by reflexivity.
  split_and!; [reflexivity | exact E |].
  rewrite E. intros [Hnin _]%NoDup_cons. apply Hnin. by left.
Qed.

Lemma addProjects_ids_witness :
  reachable shed /\
  ids (addProjects [(0.25, "Paint shed", "paint the garden shed", 1)]%float shed)
  = ids shed ++ drawn [(0.25, "Paint shed", "paint the garden shed", 1)]%float
  /\ (NoDup (ids (addProjects [(0.25, "Paint shed", "paint the garden shed", 1)]%float shed))
      <-> NoDup (ids shed)
          /\ (forall i, i ∈ ids shed ->
                i ∉ drawn [(0.25, "Paint shed", "paint the garden shed", 1)]%float)
          /\ NoDup (drawn [(0.25, "Paint shed", "paint the garden shed", 1)]%float)).
Proof.
  split; [exact reachable_shed|].
  exact (addProjects_ids [(0.25, "Paint shed", "paint the garden shed", 1)]%float
           shed reachable_shed).
Defined.

Lemma registered_workshop : registered [0%nat; 1%nat] workshop.
Proof.
  apply registered_addProject.
  apply (registered_addListener 1%nat [0%nat]).
  apply (registered_addListener 0%nat []).
  apply registered_init.
Qed.

Lemma mutation_notifies_witness :
  registered [0%nat; 1%nat] workshop
  /\ listeners workshop = [0%nat; 1%nat]
  /\ (forall random title description numPeople,
        calledInOrder [0%nat; 1%nat] workshop
          (addProject random title description numPeople workshop))
  /\ (forall id status,
        id ∈ ids workshop ->
        exists w',
          updateProject id status workshop = Normal w'
          /\ calledInOrder [0%nat; 1%nat] workshop w').
Proof.
  split; [exact registered_workshop|].
  exact (mutation_notifies [0%nat; 1%nat] workshop registered_workshop).
Defined.

Lemma two_addProject_notifications_witness :
  reachable (@init nat) /\ (0%nat ∉ listeners (@init nat)) /\
  exists new a1 a2,
    calls sheds = calls (@init nat) ++ new
    /\ filter (fun e => event_listener e = 0%nat) new = [Call 0%nat a1; Call 0%nat a2]
    /\ items a1 shed
       = projectList (@init nat)
         ++ [Project.mk (JS.Number_toString 0.5) "Build shed"
                        "construct a garden shed" 2 ACTIVE]
    /\ items a1 sheds = items a1 shed
    /\ items a2 sheds
       = items a1 sheds
         ++ [Project.mk (JS.Number_toString 0.25) "Paint shed"
                        "paint the garden shed" 1 ACTIVE].
Proof.
  assert (0%nat ∉ listeners (@init nat)) as H by apply not_elem_of_nil.
  split; [exact reach_init|]. split; [exact H|].
  exact (two_addProject_notifications init 0%nat
           0.5 "Build shed" "construct a garden shed" 2
           0.25 "Paint shed" "paint the garden shed" 1 reach_init H).
Defined.

(** * Further properties *)

(** ** The validator, continued *)

Section ValidatorMore.

Import JS.

Lemma trimStart_empty s : trimStart s = EmptyString <-> allWhiteSpace s = true.
Proof.
  induction s as [|c s IH]; simpl; [done|].
  destruct (isWhiteSpace c); simpl; [done|]. split; discriminate.
Qed.

Lemma trimStart_visible s :
  trimStart s = EmptyString \/ visible (trimStart s).
Proof.
  induction s as [|c s IH]; simpl; [by left|].
  destruct (isWhiteSpace c) eqn:Hc; [done|]. right. by exists c, s.
Qed.

Lemma blank_allWhiteSpace s : blank s = allWhiteSpace s.
Proof.
  unfold blank, trim. destruct (trimStart_visible s) as [E|Hv].
  - rewrite E. simpl. symmetry. by apply trimStart_empty.
  - pose proof (trim_visible _ Hv) as Hlen. unfold trim in Hlen.
    destruct (allWhiteSpace s) eqn:Hall.
    { apply trimStart_empty in Hall. destruct Hv as (c & r & E & _).
      by rewrite Hall in E. }
    destruct Hv as (c & r & E & Hc).
    assert (trimStart (trimStart s) = trimStart s) as Hidem.
    { rewrite E. simpl. by rewrite Hc. }
    rewrite Hidem in Hlen. destruct (trimEnd (trimStart s)); [simpl in Hlen; lia | done].
Qed.

(** X1: on a string, [required] passes exactly when some character of the
    string is not white space. *)
Theorem validate_required_string (s : string) :
  validate (ValidatorConfig.mk (Str s) (Some true) None None None None)
  = negb (allWhiteSpace s).
Proof.
  unfold validate; simpl. by rewrite required_check_spec, blank_allWhiteSpace.
Qed.

(** Comparisons with [NaN] are false. *)
Lemma Prim2SF_nan n : is_nan n = true -> Prim2SF n = S754_nan.
Proof.
  unfold is_nan. rewrite FloatAxioms.eqb_spec. unfold SFeqb, SFcompare.
  destruct (Prim2SF n) as [[|]|[|]| |[|] m e]; try discriminate; try done.
  all: rewrite Z.compare_refl.
  all: change (PosDef.Pos.compare_cont Eq m m) with (m ?= m)%positive.
  all: by rewrite Pos.compare_refl.
Qed.

Lemma leb_nan_r b n : is_nan n = true -> (b <=? n)%float = false.
Proof.
  intros Hn%Prim2SF_nan. rewrite FloatAxioms.leb_spec, Hn.
  unfold SFleb, SFcompare. by destruct (Prim2SF b).
Qed.

Lemma leb_nan_l b n : is_nan n = true -> (n <=? b)%float = false.
Proof.
  intros Hn%Prim2SF_nan. rewrite FloatAxioms.leb_spec, Hn. reflexivity.
Qed.

(** X2: a value that is [NaN] fails every range bound that is enforced:
    with a truthy [min] or a truthy [max], whatever the other constraints
    are, the validator answers [false]. *)
Theorem validate_rejects_NaN (config : ValidatorConfig.t) (n b : number) :
  ValidatorConfig.value config = Num n ->
  is_nan n = true ->
  ValidatorConfig.min config = Some b \/ ValidatorConfig.max config = Some b ->
  truthy b = true ->
  validate config = false.
Proof.
  destruct config as [v req minL maxL mn mx]. simpl.
  intros -> Hn Hb Htruthy. unfold validate; simpl.
  destruct Hb as [-> | ->]; rewrite Htruthy; unfold ge, le.
  - rewrite (leb_nan_r b n Hn), andb_false_r.
    destruct mx as [mx|]; [|done]. by destruct (truthy mx).
  - by rewrite (leb_nan_l b n Hn), andb_false_r.
Qed.

(** X17: the contract of the validator.  On a configuration whose bounds
    are each absent or truthy (not [0], not [NaN]), the validator answers
    [true] exactly when every constraint that is present holds: [required]
    on a string asks for a character that is not white space, the length
    bounds bind strings and the range bounds bind numbers. *)
Theorem validate_contract (config : ValidatorConfig.t) :
  seen (ValidatorConfig.minLength config) = true ->
  seen (ValidatorConfig.maxLength config) = true ->
  seen (ValidatorConfig.min config) = true ->
  seen (ValidatorConfig.max config) = true ->
  validate config = true
  <-> (forall s, ValidatorConfig.required config = Some true ->
                 ValidatorConfig.value config = Str s -> allWhiteSpace s = false)
      /\ (forall s b, ValidatorConfig.minLength config = Some b ->
                      ValidatorConfig.value config = Str s ->
                      ge (lengthOf s) b = true)
      /\ (forall s b, ValidatorConfig.maxLength config = Some b ->
                      ValidatorConfig.value config = Str s ->
                      le (lengthOf s) b = true)
      /\ (forall n b, ValidatorConfig.min config = Some b ->
                      ValidatorConfig.value config = Num n -> ge n b = true)
      /\ (forall n b, ValidatorConfig.max config = Some b ->
                      ValidatorConfig.value config = Num n -> le n b = true).
Proof.
  intros HminL HmaxL Hmn Hmx. rewrite validate_agrees by done.
  clear HminL HmaxL Hmn Hmx.
  destruct config as [v req minL maxL mn mx].
  unfold validate_spec, requiredPasses, lengthBoundPasses, rangeBoundPasses.
  cbn [ValidatorConfig.value ValidatorConfig.required ValidatorConfig.minLength
       ValidatorConfig.maxLength ValidatorConfig.min ValidatorConfig.max].
  rewrite !andb_true_iff.
  assert (forall s, negb (blank s) = true <-> allWhiteSpace s = false) as Hblank.
  { intros s. rewrite blank_allWhiteSpace. apply negb_true_iff. }
  destruct v as [s|n], req as [[|]|], minL as [b1|], maxL as [b2|],
    mn as [b3|], mx as [b4|];
    rewrite ?Hblank;
    (split;
     [ intros ((((H1 & H2) & H3) & H4) & H5); split_and!; intros; simplify_eq; done
     | intros (H1 & H2 & H3 & H4 & H5); split_and!;
       first [ done | by eapply H1 | by eapply H2 | by eapply H3
             | by eapply H4 | by eapply H5 ] ]).
Qed.

End ValidatorMore.

(** ** The store, continued *)

Section StoreMore.

Context {Listener : Type}.
Implicit Types (w : World Listener) (a o : ref) (l : list ref).

Lemma setStatusOfFirst_app id s before p after :
  (forall q, q ∈ before -> Project.id q <> id) ->
  Project.id p = id ->
  setStatusOfFirst id s (before ++ p :: after)
  = before ++ Project.set_status s p :: after.
Proof.
  intros Hbefore Hp. induction before as [|q before IH]; simpl.
  - by rewrite (proj2 (String.eqb_eq _ _) Hp).
  - rewrite (proj2 (String.eqb_neq _ _)) by (apply Hbefore; by left).
    f_equal. apply IH. intros q' Hq'. apply Hbefore. by right.
Qed.

(** What a completed [updateProject] did to the heap: one object of the
    store's array, the first with the id, was altered in place; then the
    listeners were notified. *)
Lemma updateProject_Normal id status w w' :
  wf w -> updateProject id status w = Normal w' ->
  exists l1 o l2 p,
    read (projects w) w = l1 ++ o :: l2
    /\ (forall o', o' ∈ l1 -> hasId id w o' = false)
    /\ (o ∉ l1) /\ (o ∉ l2)
    /\ objects w !! o = Some p /\ Project.id p = id
    /\ w' = notify (assignStatus o status w).
Proof.
  intros [Hp He Hn]. unfold updateProject.
  destruct (List.filter _ _) as [|o rest] eqn:Hf; [done|]. intros [= <-].
  apply filter_first in Hf as (l1 & l2 & Hl & Hl1 & (p & Ho & Hpid)%hasId_true).
  rewrite Hl in Hn. apply NoDup_app in Hn as (_ & Hl1o & [Hol2 _]%NoDup_cons).
  exists l1, o, l2, p. split_and!; try done.
  intros Hin. apply (Hl1o o Hin). by left.
Qed.

Lemma updateProject_objects id status w w' :
  wf w -> updateProject id status w = Normal w' ->
  exists o p,
    o ∈ read (projects w) w
    /\ objects w !! o = Some p /\ Project.id p = id
    /\ objects w' = alter (Project.set_status status) o (objects w).
Proof.
  intros Hwf Hu.
  destruct (updateProject_Normal _ _ _ _ Hwf Hu)
    as (l1 & o & l2 & p & Hl & _ & _ & _ & Ho & Hid & ->).
  exists o, p. split_and!; try done.
  - rewrite Hl. apply elem_of_app. right. by left.
  - by rewrite notify_objects by by apply wf_assignStatus.
Qed.

Lemma updateProject_arrays id status w w' a :
  wf w -> updateProject id status w = Normal w' ->
  is_Some (arrays w !! a) -> arrays w' !! a = arrays w !! a.
Proof.
  intros Hwf Hu Ha.
  destruct (updateProject_Normal _ _ _ _ Hwf Hu) as (? & o & ? & ? & _ & _ & _ & _ & _ & _ & ->).
  by rewrite notify_frame by (by apply wf_assignStatus || done).
Qed.

Lemma updateProject_projectList id status w w' :
  wf w -> updateProject id status w = Normal w' ->
  projectList w' = setStatusOfFirst id status (projectList w).
Proof.
  intros Hwf Hu.
  destruct (updateProject_Normal _ _ _ _ Hwf Hu)
    as (l1 & o & l2 & p & Hl & Hl1 & Hol1 & Hol2 & Ho & Hid & ->).
  rewrite projectList_notify by by apply wf_assignStatus.
  unfold projectList, items.
  change (read (projects (assignStatus o status w)) (assignStatus o status w))
    with (read (projects w) w).
  change (objects (assignStatus o status w))
    with (alter (Project.set_status status) o (objects w)).
  rewrite Hl, !omap_app. simpl. rewrite lookup_alter_eq, Ho. simpl.
  rewrite setStatusOfFirst_app; [|
    intros q (o' & Ho' & Hq)%list_elem_of_omap Hqid;
    assert (hasId id w o' = true) as Habs by (apply hasId_true; by exists q);
    by rewrite Hl1 in Habs | done].
  f_equal; [|f_equal]; apply omap_lookup_ext; intros o' Ho';
    apply lookup_alter_ne; by intros <-.
Qed.

Lemma setStatusOfFirst_core id s (ps : list Project.t) :
  core <$> setStatusOfFirst id s ps = core <$> ps.
Proof.
  induction ps as [|p ps IH]; simpl; [done|].
  destruct (String.eqb (Project.id p) id); simpl; [done | f_equal; apply IH].
Qed.

Lemma setStatusOfFirst_idempotent id s (ps : list Project.t) :
  setStatusOfFirst id s (setStatusOfFirst id s ps) = setStatusOfFirst id s ps.
Proof.
  induction ps as [|p ps IH]; simpl; [done|].
  destruct (String.eqb (Project.id p) id) eqn:Hp; simpl; rewrite Hp; [done|].
  by rewrite IH.
Qed.

Lemma core_id (ps : list Project.t) : Project.id <$> ps = (fun c => c.1.1.1) <$> (core <$> ps).
Proof. by rewrite <- list_fmap_compose. Qed.

Lemma updateProject_ids id status w w' :
  wf w -> updateProject id status w = Normal w' -> ids w' = ids w.
Proof.
  intros Hwf Hu. unfold ids.
  rewrite (updateProject_projectList _ _ _ _ Hwf Hu), !core_id.
  by rewrite setStatusOfFirst_core.
Qed.

Lemma updateProject_Normal_id id status w w' :
  wf w -> updateProject id status w = Normal w' -> id ∈ ids w.
Proof.
  intros Hwf Hu.
  destruct (updateProject_objects _ _ _ _ Hwf Hu) as (o & p & Ho & Hp & Hid & _).
  unfold ids. apply list_elem_of_fmap. exists p. split; [done|].
  unfold projectList, items. apply list_elem_of_omap. by exists o.
Qed.

Lemma step_wf w w' : wf w -> step w w' -> wf w'.
Proof.
  intros Hwf Hs. destruct Hs as [l w0|r t d n w0|id s w0 w1 Hu].
  - by apply wf_addListener.
  - by apply wf_addProject.
  - by apply (wf_updateProject id s w0).
Qed.

Lemma steps_wf w w' : wf w -> rtc step w w' -> wf w'.
Proof. intros Hwf Hs. induction Hs; eauto using step_wf. Qed.

(** X3: the store never removes, reorders or rewrites a project.  Across
    any run of operations from a state of the store, the ids, titles,
    descriptions and people counts stored before are still there, in the
    same positions; only projects added later follow them. *)
Theorem projects_persist (w w' : World Listener) :
  reachable w -> rtc step w w' ->
  exists more, core <$> projectList w' = (core <$> projectList w) ++ more.
Proof.
  intros Hwf%reachable_wf Hs. induction Hs as [w|w w1 w2 H1 _ IH].
  - exists []. by rewrite app_nil_r.
  - destruct (IH (step_wf _ _ Hwf H1)) as [more Hmore]. rewrite Hmore.
    destruct H1 as [l w0|r t d n w0|id s w0 w1 Hu].
    + by exists more.
    + rewrite projectList_addProject by done. rewrite fmap_app, <- app_assoc.
      by eexists.
    + rewrite (updateProject_projectList _ _ _ _ Hwf Hu), setStatusOfFirst_core.
      by exists more.
Qed.

(** X4: the store never unregisters or reorders a listener: across any
    run of operations the listeners registered before are still
    registered, first and in the same order. *)
Theorem listeners_persist (w w' : World Listener) :
  reachable w -> rtc step w w' ->
  exists more, listeners w' = listeners w ++ more.
Proof.
  intros Hwf%reachable_wf Hs. induction Hs as [w|w w1 w2 H1 _ IH].
  - exists []. by rewrite app_nil_r.
  - destruct (IH (step_wf _ _ Hwf H1)) as [more Hmore]. rewrite Hmore.
    destruct H1 as [l w0|r t d n w0|id s w0 w1 Hu].
    + simpl. rewrite <- app_assoc. by eexists.
    + rewrite addProject_unfold, notify_listeners by by apply wf_pushed.
      by exists more.
    + destruct (updateProject_Normal _ _ _ _ Hwf Hu)
        as (? & o & ? & ? & _ & _ & _ & _ & _ & _ & ->).
      rewrite notify_listeners by by apply wf_assignStatus. by exists more.
Qed.

(** X5: [updateProject] is idempotent on the project list.  After a call
    that completed, the same call completes again and leaves the list as
    the first call made it. *)
Theorem updateProject_twice (w w1 : World Listener) id status :
  reachable w -> updateProject id status w = Normal w1 ->
  exists w2,
    updateProject id status w1 = Normal w2
    /\ projectList w2 = projectList w1.
Proof.
  intros Hwf%reachable_wf Hu.
  pose proof (wf_updateProject _ _ _ _ Hwf Hu) as Hwf1.
  assert (id ∈ ids w1) as Hid.
  { rewrite (updateProject_ids _ _ _ _ Hwf Hu).
    by apply (updateProject_Normal_id id status w w1). }
  destruct (updateProject_notified id status w1 Hwf1 Hid) as (w2 & Hu2 & _).
  exists w2. split; [done|].
  rewrite (updateProject_projectList _ _ _ _ Hwf1 Hu2).
  rewrite (updateProject_projectList _ _ _ _ Hwf Hu).
  apply setStatusOfFirst_idempotent.
Qed.

Lemma setStatusOfFirst_same id s (ps : list Project.t) :
  Project.status <$> List.find (fun p => String.eqb (Project.id p) id) ps = Some s ->
  setStatusOfFirst id s ps = ps.
Proof.
  induction ps as [|p ps IH]; simpl; [done|].
  destruct (String.eqb (Project.id p) id); simpl.
  - intros [= <-]. by destruct p.
  - intros H. by rewrite IH.
Qed.

Lemma find_id_Some id (ps : list Project.t) p :
  List.find (fun p => String.eqb (Project.id p) id) ps = Some p ->
  id ∈ Project.id <$> ps.
Proof.
  intros [Hin Heq%String.eqb_eq]%find_some.
  apply list_elem_of_fmap. exists p. split; [done | by apply list_elem_of_In].
Qed.

(** X6: setting the status that the project already has changes no
    project, yet the listeners are notified all the same: when the first
    project with the id has the status, [updateProject] completes, the
    project list is as before, and one notification pass was made. *)
Theorem updateProject_same_status (w : World Listener) id status :
  reachable w ->
  Project.status
    <$> List.find (fun p => String.eqb (Project.id p) id) (projectList w)
  = Some status ->
  exists w',
    updateProject id status w = Normal w'
    /\ projectList w' = projectList w
    /\ notified w w'.
Proof.
  intros Hwf%reachable_wf Hfind.
  assert (id ∈ ids w) as Hid.
  { destruct (List.find _ _) as [p|] eqn:Hp; [|done].
    by apply (find_id_Some id _ p). }
  destruct (updateProject_notified id status w Hwf Hid) as (w' & Hu & Hn).
  exists w'. split_and!; [done| |done].
  rewrite (updateProject_projectList _ _ _ _ Hwf Hu).
  by apply setStatusOfFirst_same.
Qed.

(** X7: [updateProject] works in place.  A call that completes alters one
    [Project] object, an element of the store's array with the id, and no
    array: every array that existed, the arrays handed to listeners
    earlier included, keeps its elements, and those that hold the object
    now show it with the new status. *)
Theorem updateProject_in_place (w w' : World Listener) id status :
  reachable w -> updateProject id status w = Normal w' ->
  (forall a l, arrays w !! a = Some l -> arrays w' !! a = Some l)
  /\ exists o p,
       o ∈ read (projects w) w
       /\ objects w !! o = Some p /\ Project.id p = id
       /\ objects w' = alter (Project.set_status status) o (objects w)
       /\ forall a l, arrays w !! a = Some l -> o ∈ l ->
            Project.set_status status p ∈ items a w'.
Proof.
  intros Hwf%reachable_wf Hu.
  assert (forall a l, arrays w !! a = Some l -> arrays w' !! a = Some l) as Harr.
  { intros a l Ha. rewrite <- Ha.
    apply (updateProject_arrays id status w w'); [done|done|by rewrite Ha]. }
  split; [done|].
  destruct (updateProject_objects _ _ _ _ Hwf Hu) as (o & p & Ho & Hp & Hid & Hobj).
  exists o, p. split_and!; try done.
  intros a l Ha Hin. unfold items. rewrite (read_Some _ _ _ (Harr _ _ Ha)).
  apply list_elem_of_omap. exists o. split; [done|].
  by rewrite Hobj, lookup_alter_eq, Hp.
Qed.

(** X8: an array handed to a listener earlier is not changed by a later
    [addProject]: the new project goes to the store's own array.  Every
    array other than the store's keeps its elements and their projects. *)
Theorem addProject_keeps_snapshots (w : World Listener) a
    random title description numPeople :
  reachable w -> a <> projects w -> is_Some (arrays w !! a) ->
  read a (addProject random title description numPeople w) = read a w
  /\ items a (addProject random title description numPeople w) = items a w.
Proof.
  intros Hwf%reachable_wf Hne Ha. rewrite addProject_unfold.
  set (p := Project.mk _ _ _ _ _).
  destruct (items_pushed_frame p w a Hwf Hne Ha) as [Harr Hitems].
  assert (is_Some (arrays (pushed p w) !! a)) as Ha' by by rewrite Harr.
  split.
  - unfold read. by rewrite notify_frame, Harr by (by apply wf_pushed || done).
  - by rewrite items_notify by (by apply wf_pushed || done).
Qed.

Lemma reachable_ids_visible w i : reachable w -> i ∈ ids w -> visible i.
Proof.
  intros Hw. revert i.
  induction Hw as [|l w _ IH|r t d n w Hw IH|id s w w' Hw IH Hu].
  - by intros i Hi%elem_of_nil.
  - done.
  - intros i. unfold ids.
    rewrite projectList_addProject by by apply reachable_wf.
    rewrite fmap_app. intros [Hi|Hi%list_elem_of_singleton]%elem_of_app.
    + by apply IH.
    + subst i. apply Number_toString_visible.
  - rewrite (updateProject_ids id s w w'); [done | by apply reachable_wf | done].
Qed.

Lemma reachable_ids_nonempty w : reachable w -> EmptyString ∉ ids w.
Proof. intros Hw (c & r & E & _)%(reachable_ids_visible w); done. Qed.

Lemma reachable_ids_numbers w i :
  reachable w -> i ∈ ids w -> exists x, i = JS.Number_toString x.
Proof.
  intros Hw. revert i.
  induction Hw as [|l w _ IH|r t d n w Hw IH|id s w w' Hw IH Hu].
  - by intros i Hi%elem_of_nil.
  - done.
  - intros i. unfold ids.
    rewrite projectList_addProject by by apply reachable_wf.
    rewrite fmap_app. intros [Hi|Hi%list_elem_of_singleton]%elem_of_app.
    + by apply IH.
    + by exists r.
  - rewrite (updateProject_ids id s w w'); [done | by apply reachable_wf | done].
Qed.

(** X9: no stored id is empty or blank: every id is the decimal string of
    a number, and so starts with a character that is not white space.  So
    [updateProject] with the empty string as id throws in every state of
    the store. *)
Theorem ids_visible (w : World Listener) :
  reachable w ->
  (forall i, i ∈ ids w -> exists x, i = JS.Number_toString x)
  /\ (forall i, i ∈ ids w -> visible i)
  /\ forall status, updateProject EmptyString status w = Throw TypeError w.
Proof.
  intros Hw. split_and!.
  - intros i. by apply reachable_ids_numbers.
  - intros i. by apply reachable_ids_visible.
  - intros status. unfold updateProject.
    by rewrite hasId_unknown by by apply reachable_ids_nonempty.
Qed.

End StoreMore.

(** ** The input form *)

Section Form.

Import JS.

Lemma truthy_one : truthy 1 = true.
Proof. reflexivity. Qed.

Lemma truthy_five : truthy 5 = true.
Proof. reflexivity. Qed.

Lemma validate_title (s : string) :
  validate (ValidatorConfig.mk (Str s) (Some true) None None None None)
  = negb (allWhiteSpace s).
Proof.
  unfold validate; simpl. by rewrite required_check_spec, blank_allWhiteSpace.
Qed.

Lemma validate_description (s : string) :
  validate (ValidatorConfig.mk (Str s) (Some true) (Some 5%float) None None None)
  = negb (allWhiteSpace s) && ge (lengthOf s) 5.
Proof.
  unfold validate; cbn -[truthy ge lengthOf trim Nat.ltb String.length].
  by rewrite truthy_five, required_check_spec, blank_allWhiteSpace.
Qed.

Lemma validate_people (n : number) :
  validate (ValidatorConfig.mk (Num n) (Some true) None None
                               (Some 1%float) (Some 5%float))
  = ge n 1 && le n 5.
Proof.
  unfold validate; cbn -[truthy ge le trim Number_toString Nat.ltb String.length].
  by rewrite truthy_one, truthy_five, required_check_number.
Qed.

(** [gatherUserInput], with the three validations worked out. *)
Lemma gatherUserInput_unfold (form : ProjectInput.t) :
  gatherUserInput form
  = let title := ProjectInput.titleInputElement form in
    let description := ProjectInput.descriptionInputElement form in
    let people := Coercion.StringToNumber (ProjectInput.peopleInputElement form) in
    if negb (allWhiteSpace title)
       && ((negb (allWhiteSpace description) && ge (lengthOf description) 5)
           && (ge people 1 && le people 5))
    then Some (title, description, people)
    else None.
Proof.
  unfold gatherUserInput. cbn [forallb].
  by rewrite validate_title, validate_description, validate_people, andb_true_r.
Qed.

Lemma gatherUserInput_accepted form t d n id status :
  gatherUserInput form = Some (t, d, n) ->
  accepted (Project.mk id t d n status).
Proof.
  rewrite gatherUserInput_unfold. cbv zeta.
  destruct (_ && _) eqn:Hvalid; [|done]. intros [= <- <- <-].
  apply andb_prop in Hvalid as [Ht [[Hd Hlen]%andb_prop [H1 H5]%andb_prop]%andb_prop].
  apply negb_true_iff in Ht, Hd. by split_and!.
Qed.

(** X10: the form's input is accepted exactly when the title has a
    character that is not white space, the description has one too and is
    at least 5 long, and the people text converts to a number between 1
    and 5.  What is returned is the title and the description as typed
    (not trimmed) and that number. *)
Theorem gatherUserInput_spec (form : ProjectInput.t) (t d : string) (n : number) :
  gatherUserInput form = Some (t, d, n)
  <-> t = ProjectInput.titleInputElement form
      /\ d = ProjectInput.descriptionInputElement form
      /\ n = Coercion.StringToNumber (ProjectInput.peopleInputElement form)
      /\ allWhiteSpace t = false
      /\ allWhiteSpace d = false
      /\ ge (lengthOf d) 5 = true
      /\ ge n 1 = true
      /\ le n 5 = true.
Proof.
  rewrite gatherUserInput_unfold. cbv zeta.
  destruct form as [title description people]; simpl.
  set (x := Coercion.StringToNumber people). split.
  - destruct (_ && _) eqn:Hvalid; [|done]. intros [= <- <- <-].
    apply andb_prop in Hvalid
      as [Ht [[Hd Hlen]%andb_prop [H1 H5]%andb_prop]%andb_prop].
    apply negb_true_iff in Ht, Hd. by split_and!.
  - intros (-> & -> & -> & Ht & Hd & Hlen & H1 & H5).
    by rewrite Ht, Hd, Hlen, H1, H5.
Qed.

(** X12: a people text that is empty or all white space converts to [0],
    and one that is not a numeric literal converts to [NaN]; either way
    the form's input is rejected, whatever the title and the description
    are. *)
Theorem gatherUserInput_rejects_people (form : ProjectInput.t) :
  allWhiteSpace (ProjectInput.peopleInputElement form) = true
  \/ Coercion.numericLiteral (trim (ProjectInput.peopleInputElement form)) = None ->
  gatherUserInput form = None.
Proof.
  intros H.
  assert (ge (Coercion.StringToNumber (ProjectInput.peopleInputElement form)) 1
          = false) as Hge.
  { unfold Coercion.StringToNumber. destruct H as [H|H].
    - rewrite <- blank_allWhiteSpace in H. unfold blank in H.
      by destruct (trim _).
    - revert H. destruct (trim _); [done|]. by intros ->. }
  rewrite gatherUserInput_unfold. cbv zeta. by rewrite Hge, !andb_false_r.
Qed.

End Form.

(** ** The application *)

Section Application.

Implicit Types (w v : World ProjectStatus) (a o : ref) (l : list ref).

Lemma children_itemsOf w l : forall acc,
  foldl (fun children o =>
           match objects w !! o with
           | Some p => children ++ [newProjectItem o p]
           | None => children
           end) acc l
  = acc ++ itemsOf w l.
Proof.
  unfold itemsOf. induction l as [|o l IH]; intros acc; simpl.
  - by rewrite app_nil_r.
  - rewrite IH. destruct (objects w !! o); simpl; [|done].
    by rewrite <- app_assoc.
Qed.

Lemma hasStatus_ext type v w :
  objects v = objects w -> hasStatus type v = hasStatus type w.
Proof. unfold hasStatus. by intros ->. Qed.

Lemma itemsOf_ext v w l : objects v = objects w -> itemsOf v l = itemsOf w l.
Proof. unfold itemsOf. by intros ->. Qed.

(** The listener of a list, called with a copy of the store's array,
    brings the list up to date. *)
Lemma onProjects_consistent v w a type this :
  ProjectList.type this = type ->
  objects v = objects w ->
  read a v = read (projects w) w ->
  consistentList w type (onProjects a v this).
Proof.
  intros Htype Hobj Hread. unfold consistentList, onProjects, renderProjects.
  cbn [ProjectList.type ProjectList.assignedProjects ProjectList.listItems].
  rewrite Htype, Hread, (hasStatus_ext type v w Hobj).
  split_and!; [done|done|]. right.
  by rewrite children_itemsOf, (itemsOf_ext v w).
Qed.

Lemma forEachListenerRun_world {S} (run : ProjectStatus -> ref -> World ProjectStatus -> S -> S)
    (ls : list ProjectStatus) : forall w s,
  (forEachListenerRun run ls w s).1 = forEachListener ls w.
Proof.
  induction ls as [|x ls IH]; intros w s; [done|]. simpl. apply IH.
Qed.

(** The pass over the two lists. *)
Lemma pass_consistent w active finished :
  wf w ->
  listeners w = [ACTIVE; FINISHED] ->
  ProjectList.type active = ACTIVE ->
  ProjectList.type finished = FINISHED ->
  exists active' finished',
    forEachListenerRun listener (listeners w) w (active, finished)
    = (notify w, (active', finished'))
    /\ consistentList (notify w) ACTIVE active'
    /\ consistentList (notify w) FINISHED finished'.
Proof.
  intros Hwf Hls Ha Hf. pose proof Hwf as [Hp _ _].
  pose proof (forEachListenerRun_world listener (listeners w) w (active, finished))
    as Hworld. fold (notify w) in Hworld.
  assert (read (projects (notify w)) (notify w) = read (projects w) w) as Hread.
  { unfold read. by rewrite notify_projects, notify_frame. }
  pose proof (notify_objects w Hwf) as Hobj.
  revert Hworld. rewrite Hls. cbn [forEachListenerRun slice newArray listener fst snd].
  set (s1 := fresh (dom (arrays w))).
  set (w1 := call ACTIVE s1 _).
  set (s2 := fresh (dom (arrays w1))).
  set (w2 := call FINISHED s2 _).
  intros Hworld. simpl in Hworld.
  assert (s1 <> projects w) as Hs1 by by apply fresh_array.
  assert (read s1 w1 = read (projects w) w) as Hr1.
  { unfold read at 1. simpl. by rewrite lookup_insert_eq. }
  assert (read (projects w1) w1 = read (projects w) w) as Hp1.
  { unfold read at 1. simpl. by rewrite lookup_insert_ne. }
  assert (read s2 w2 = read (projects w) w) as Hr2.
  { unfold read at 1. simpl. by rewrite lookup_insert_eq. }
  eexists _, _. split; [by rewrite <- Hworld|]. split.
  - apply onProjects_consistent; [done | by rewrite Hobj | by rewrite Hread].
  - apply onProjects_consistent; [done | by rewrite Hobj | by rewrite Hread].
Qed.

Lemma addProjectRun_consistent random title description numPeople w active finished :
  reachable w ->
  listeners w = [ACTIVE; FINISHED] ->
  ProjectList.type active = ACTIVE ->
  ProjectList.type finished = FINISHED ->
  exists active' finished',
    addProjectRun listener random title description numPeople w (active, finished)
    = (addProject random title description numPeople w, (active', finished'))
    /\ consistentList (addProject random title description numPeople w) ACTIVE active'
    /\ consistentList (addProject random title description numPeople w) FINISHED finished'.
Proof.
  intros Hwf%reachable_wf Hls Ha Hf. unfold addProjectRun.
  rewrite addProject_unfold. by apply pass_consistent; [apply wf_pushed|..].
Qed.

Lemma updateProjectRun_Returned id status w active finished r :
  reachable w ->
  listeners w = [ACTIVE; FINISHED] ->
  ProjectList.type active = ACTIVE ->
  ProjectList.type finished = FINISHED ->
  updateProjectRun listener id status w (active, finished) = Returned r ->
  exists w' active' finished',
    r = (w', (active', finished'))
    /\ updateProject id status w = Normal w'
    /\ consistentList w' ACTIVE active'
    /\ consistentList w' FINISHED finished'.
Proof.
  intros Hwf%reachable_wf Hls Ha Hf. unfold updateProjectRun, updateProject.
  destruct (List.filter _ _) as [|o rest]; [done|]. cbv zeta. intros [= <-].
  destruct (pass_consistent (assignStatus o status w) active finished)
    as (active' & finished' & Heq & Hca & Hcf); [by apply wf_assignStatus|done..|].
  exists (notify (assignStatus o status w)), active', finished'.
  split_and!; [by rewrite <- Heq|done..].
Qed.

Lemma updateProjectRun_Thrown id status w active finished e r :
  updateProjectRun listener id status w (active, finished) = Thrown e r ->
  updateProject id status w = Throw TypeError w /\ e = TypeError /\ r = (w, (active, finished)).
Proof.
  unfold updateProjectRun, updateProject.
  destruct (List.filter _ _) as [|o rest]; [|done].
  destruct e. intros H. by inversion H.
Qed.

Lemma consistentList_marked w type this marked :
  consistentList w type this ->
  consistentList w type
    (ProjectList.mk (ProjectList.type this) (ProjectList.assignedProjects this)
                    (ProjectList.listItems this) marked).
Proof. done. Qed.

Lemma consistentList_dragOver w type this event :
  consistentList w type this ->
  consistentList w type (dragOverHandler this event).1.
Proof.
  intros H. unfold dragOverHandler.
  destruct (DataTransfer.types <$> _) as [[|first rest]|]; try done.
  by destruct (String.eqb first "text/plain").
Qed.

Lemma consistent_bootstrap form activeMarked finishedMarked :
  consistent (bootstrap form activeMarked finishedMarked).
Proof.
  eexists. split; [reflexivity|]. split_and!.
  - apply reach_addListener, reach_addListener, reach_init.
  - reflexivity.
  - split_and!; [done|done|]. left. by split.
  - split_and!; [done|done|]. left. by split.
Qed.

(** Every state of the application is consistent. *)
Lemma app_consistent app : reachableApp app -> consistent app.
Proof.
  induction 1 as [form am fm
                 |form app _ IH
                 |random app _ IH
                 |event app _ IH|event app _ IH
                 |app _ IH|app _ IH
                 |event app app' _ IH Hdrop|event app app' _ IH Hdrop].
  - apply consistent_bootstrap.
  - destruct IH as (w & ? & ? & ? & ? & ?). by exists w.
  - destruct IH as (w & Hi & Hw & Hls & Ha & Hf). unfold submitHandler.
    destruct (gatherUserInput (input app)) as [[[title desc] people]|];
      [|by exists w].
    rewrite Hi. cbn [getInstance].
    destruct (addProjectRun_consistent random title desc people w
                (activeList app) (finishedList app) Hw Hls (proj1 Ha) (proj1 Hf))
      as (a' & f' & -> & Hca & Hcf).
    eexists. split; [reflexivity|]. split_and!; try done.
    + by constructor.
    + rewrite addProject_unfold, notify_listeners; [done|].
      by apply wf_pushed, reachable_wf.
  - destruct IH as (w & ? & ? & ? & ? & ?). exists w. split_and!; try done.
    by apply consistentList_dragOver.
  - destruct IH as (w & ? & ? & ? & ? & ?). exists w. split_and!; try done.
    by apply consistentList_dragOver.
  - destruct IH as (w & ? & ? & ? & ? & ?). by exists w.
  - destruct IH as (w & ? & ? & ? & ? & ?). by exists w.
  - destruct IH as (w & Hi & Hw & Hls & Ha & Hf). revert Hdrop.
    unfold dropHandler. destruct (DragEvent.dataTransfer event) as [dt|]; [|done].
    rewrite Hi. cbn [getInstance].
    destruct (updateProjectRun _ _ _ _ _) as [r|e r] eqn:Hrun; [|by destruct r].
    destruct (updateProjectRun_Returned _ _ _ _ _ _ Hw Hls (proj1 Ha) (proj1 Hf) Hrun)
      as (w' & a' & f' & -> & Hu & Hca & Hcf).
    intros [= <-]. exists w'. split_and!; try done.
    + exact (reach_updateProject _ _ w w' Hw Hu).
    + destruct (updateProject_Normal _ _ _ _ (reachable_wf _ Hw) Hu)
        as (? & o & ? & ? & _ & _ & _ & _ & _ & _ & ->).
      rewrite notify_listeners; [done | by apply wf_assignStatus, reachable_wf].
  - destruct IH as (w & Hi & Hw & Hls & Ha & Hf). revert Hdrop.
    unfold dropHandler. destruct (DragEvent.dataTransfer event) as [dt|]; [|done].
    rewrite Hi. cbn [getInstance].
    destruct (updateProjectRun _ _ _ _ _) as [r|e r] eqn:Hrun; [|by destruct r].
    destruct (updateProjectRun_Returned _ _ _ _ _ _ Hw Hls (proj1 Ha) (proj1 Hf) Hrun)
      as (w' & a' & f' & -> & Hu & Hca & Hcf).
    intros [= <-]. exists w'. split_and!; try done.
    + exact (reach_updateProject _ _ w w' Hw Hu).
    + destruct (updateProject_Normal _ _ _ _ (reachable_wf _ Hw) Hu)
        as (? & o & ? & ? & _ & _ & _ & _ & _ & _ & ->).
      rewrite notify_listeners; [done | by apply wf_assignStatus, reachable_wf].
Qed.

(** *** What the lists show *)

Lemma view_itemsOf w type l :
  (forall p, p ∈ omap (fun o => objects w !! o) l -> Project.id p <> EmptyString) ->
  view <$> itemsOf w (List.filter (hasStatus type w) l)
  = expected type (omap (fun o => objects w !! o) l).
Proof.
  unfold itemsOf, expected, hasStatus.
  induction l as [|o l IH]; intros Hid; [done|]. simpl in *.
  destruct (objects w !! o) as [p|] eqn:Ho.
  - assert (String.eqb (Project.id p) EmptyString = false) as Hne
      by (apply String.eqb_neq, Hid; by left).
    destruct (status_eqb (Project.status p) type) eqn:Hs; simpl; rewrite Hs.
    + rewrite Ho. simpl. unfold view at 1, newProjectItem. simpl. rewrite Hne.
      f_equal. apply IH. intros q Hq. apply Hid. by right.
    + apply IH. intros q Hq. apply Hid. by right.
  - by apply IH.
Qed.

Lemma consistentList_shows w type this :
  reachable w -> consistentList w type this -> shows this type (projectList w).
Proof.
  intros Hw (_ & Hassigned & [[Hnone Hempty]|Hsome]); unfold shows.
  - rewrite Hnone. unfold projectList, items. by rewrite Hempty.
  - rewrite Hsome, Hassigned. apply view_itemsOf. intros p Hp Hid.
    apply (reachable_ids_nonempty w Hw). rewrite <- Hid.
    by apply list_elem_of_fmap_2.
Qed.

(** X11: in every state of the application each list shows the store's
    projects of its status, in the store's order: one item per project,
    with the project's id as element id and its title, people label and
    description as texts.  (Before the first project is added the lists
    have not rendered; the store is empty then.) *)
Theorem lists_show_store (app : App) :
  reachableApp app ->
  exists w,
    instance app = Some w
    /\ reachable w
    /\ listeners w = [ACTIVE; FINISHED]
    /\ shows (activeList app) ACTIVE (projectList w)
    /\ shows (finishedList app) FINISHED (projectList w).
Proof.
  intros (w & Hi & Hw & Hls & Ha & Hf)%app_consistent.
  exists w. split_and!; try done; by apply consistentList_shows.
Qed.

(** *** What the store holds *)

Lemma accepted_setStatusOfFirst id s (ps : list Project.t) :
  Forall accepted ps -> Forall accepted (setStatusOfFirst id s ps).
Proof.
  induction 1 as [|p ps Hp Hps IH]; simpl; [done|].
  destruct (String.eqb (Project.id p) id); by constructor.
Qed.

Lemma app_accepted app :
  reachableApp app ->
  forall w, instance app = Some w -> Forall accepted (projectList w).
Proof.
  induction 1 as [form am fm
                 |form app _ IH
                 |random app Happ IH
                 |event app _ IH|event app _ IH
                 |app _ IH|app _ IH
                 |event app app' Happ IH Hdrop|event app app' Happ IH Hdrop];
    try done.
  - intros w [= <-]. constructor.
  - destruct (app_consistent _ Happ) as (w & Hi & Hw & Hls & Ha & Hf).
    unfold submitHandler.
    destruct (gatherUserInput (input app)) as [[[title desc] people]|] eqn:Hg;
      [|done].
    rewrite Hi. cbn [getInstance].
    destruct (addProjectRun_consistent random title desc people w
                (activeList app) (finishedList app) Hw Hls (proj1 Ha) (proj1 Hf))
      as (a' & f' & -> & _ & _).
    intros w' [= <-]. rewrite projectList_addProject by by apply reachable_wf.
    apply Forall_app. split; [by apply IH|]. constructor; [|done].
    by apply (gatherUserInput_accepted (input app)).
  - destruct (app_consistent _ Happ) as (w & Hi & Hw & Hls & Ha & Hf).
    revert Hdrop. unfold dropHandler.
    destruct (DragEvent.dataTransfer event) as [dt|]; [|done].
    rewrite Hi. cbn [getInstance].
    destruct (updateProjectRun _ _ _ _ _) as [r|e r] eqn:Hrun; [|by destruct r].
    destruct (updateProjectRun_Returned _ _ _ _ _ _ Hw Hls (proj1 Ha) (proj1 Hf) Hrun)
      as (w' & a' & f' & -> & Hu & _ & _).
    intros [= <-] w'' [= <-].
    rewrite (updateProject_projectList _ _ _ _ (reachable_wf _ Hw) Hu).
    by apply accepted_setStatusOfFirst, IH.
  - destruct (app_consistent _ Happ) as (w & Hi & Hw & Hls & Ha & Hf).
    revert Hdrop. unfold dropHandler.
    destruct (DragEvent.dataTransfer event) as [dt|]; [|done].
    rewrite Hi. cbn [getInstance].
    destruct (updateProjectRun _ _ _ _ _) as [r|e r] eqn:Hrun; [|by destruct r].
    destruct (updateProjectRun_Returned _ _ _ _ _ _ Hw Hls (proj1 Ha) (proj1 Hf) Hrun)
      as (w' & a' & f' & -> & Hu & _ & _).
    intros [= <-] w'' [= <-].
    rewrite (updateProject_projectList _ _ _ _ (reachable_wf _ Hw) Hu).
    by apply accepted_setStatusOfFirst, IH.
Qed.

(** X13: the store of the application only ever holds projects that the
    form let through.  In every state of the application, every stored
    project has a title and a description with a character that is not
    white space, a description at least 5 long and a people count between
    1 and 5. *)
Theorem stored_projects_accepted (app : App) :
  reachableApp app ->
  exists w, instance app = Some w /\ forall p, p ∈ projectList w -> accepted p.
Proof.
  intros Happ. destruct (app_consistent _ Happ) as (w & Hi & _).
  exists w. split; [done|]. apply Forall_forall. exact (app_accepted app Happ w Hi).
Qed.

(** *** Submitting the form *)

Lemma consistentList_rendered w type this :
  reachable w -> projectList w <> [] -> consistentList w type this ->
  exists children,
    ProjectList.listItems this = Some children
    /\ view <$> children = expected type (projectList w).
Proof.
  intros Hw Hne Hc. pose proof (consistentList_shows w type this Hw Hc) as Hs.
  unfold shows in Hs. destruct (ProjectList.listItems this) as [children|]; [|done].
  by exists children.
Qed.

Lemma expected_snoc type (ps : list Project.t) p :
  expected type (ps ++ [p])
  = expected type ps
    ++ (if status_eqb (Project.status p) type
        then [(Some (Project.id p), Project.title p, peopleCount p,
               Project.description p)]
        else []).
Proof.
  unfold expected. rewrite List.filter_app, fmap_app. simpl.
  by destruct (status_eqb (Project.status p) type).
Qed.

(** X14: submitting the form.  When the input is not accepted nothing
    changes: not the store, not the lists, not the inputs.  When it is
    accepted, the store gains the project, the three inputs are emptied,
    the active list shows what it should have shown before followed by
    the new project, and the finished list shows what it should have
    shown before. *)
Theorem submitHandler_spec (random : JS.number) (app : App) :
  reachableApp app ->
  match gatherUserInput (input app) with
  | None => submitHandler random app = app
  | Some (title, desc, people) =>
      exists w active finished activeItems finishedItems,
        instance app = Some w
        /\ submitHandler random app
           = mkApp (ProjectInput.mk EmptyString EmptyString EmptyString)
                   (Some (addProject random title desc people w))
                   active finished
        /\ ProjectList.listItems active = Some activeItems
        /\ view <$> activeItems
           = expected ACTIVE (projectList w)
             ++ [(Some (JS.Number_toString random), title,
                  peopleCount (Project.mk (JS.Number_toString random) title desc
                                          people ACTIVE),
                  desc)]
        /\ ProjectList.listItems finished = Some finishedItems
        /\ view <$> finishedItems = expected FINISHED (projectList w)
  end.
Proof.
  intros (w & Hi & Hw & Hls & Ha & Hf)%app_consistent. unfold submitHandler.
  destruct (gatherUserInput (input app)) as [[[title desc] people]|]; [|done].
  rewrite Hi. cbn [getInstance].
  destruct (addProjectRun_consistent random title desc people w
              (activeList app) (finishedList app) Hw Hls (proj1 Ha) (proj1 Hf))
    as (a' & f' & -> & Hca & Hcf).
  set (w' := addProject random title desc people w) in *.
  assert (reachable w') as Hw' by by constructor.
  assert (projectList w'
          = projectList w
            ++ [Project.mk (JS.Number_toString random) title desc people ACTIVE])
    as Hlist by by apply projectList_addProject, reachable_wf.
  assert (projectList w' <> []) as Hne.
  { rewrite Hlist. by intros [_ ?]%app_eq_nil. }
  destruct (consistentList_rendered w' ACTIVE a' Hw' Hne Hca) as (ca & Hia & Hva).
  destruct (consistentList_rendered w' FINISHED f' Hw' Hne Hcf) as (cf & Hif & Hvf).
  exists w, a', f', ca, cf. split_and!; try done.
  - by rewrite Hva, Hlist, expected_snoc.
  - rewrite Hvf, Hlist, expected_snoc. simpl. by rewrite app_nil_r.
Qed.

(** *** Drag and drop *)

Lemma getData_setData format value dt effect :
  DataTransfer.getData format
    (DataTransfer.mk
       (DataTransfer.data (DataTransfer.setData format value dt)) effect)
  = value.
Proof.
  unfold DataTransfer.getData, DataTransfer.setData. simpl.
  induction (DataTransfer.data dt) as [|[f v] items IH]; simpl.
  - by rewrite String.eqb_refl.
  - destruct (String.eqb f format) eqn:Hf; simpl; [done|]. by rewrite Hf.
Qed.

Lemma getData_absent format dt :
  format ∉ DataTransfer.types dt -> DataTransfer.getData format dt = EmptyString.
Proof.
  unfold DataTransfer.getData, DataTransfer.types.
  induction (DataTransfer.data dt) as [|[f v] items IH]; simpl; [done|].
  intros [Hne Hnin]%not_elem_of_cons.
  rewrite (proj2 (String.eqb_neq f format)) by done. by apply IH.
Qed.

Lemma app_eta app w :
  instance app = Some w ->
  mkApp (input app) (Some w) (activeList app) (finishedList app) = app.
Proof. destruct app; simpl. by intros ->. Qed.

Lemma dropHandler_unknown app w this event dt :
  instance app = Some w ->
  DragEvent.dataTransfer event = Some dt ->
  DataTransfer.getData "text/plain" dt ∉ ids w ->
  dropHandler this event app = Thrown TypeError app.
Proof.
  intros Hi Hdt Hid. unfold dropHandler. rewrite Hdt, Hi. cbn [getInstance].
  unfold updateProjectRun. rewrite hasId_unknown by done.
  by rewrite app_eta.
Qed.

(** X15: a drop whose payload is not the id of a stored project throws and
    changes nothing, in the store, the lists or the inputs.  That is the
    case of every drop that carries no [text/plain] data: the id read is
    the empty string, which no project has. *)
Theorem drop_foreign (app : App) (w : World ProjectStatus)
    (this : ProjectList.t) (event : DragEvent.t) (dt : DataTransfer.t) :
  reachableApp app ->
  instance app = Some w ->
  DragEvent.dataTransfer event = Some dt ->
  DataTransfer.getData "text/plain" dt ∉ ids w
  \/ "text/plain" ∉ DataTransfer.types dt ->
  dropHandler this event app = Thrown TypeError app.
Proof.
  intros (w0 & Hi0 & Hw & _)%app_consistent Hi Hdt H.
  rewrite Hi in Hi0. injection Hi0 as <-.
  apply (dropHandler_unknown app w this event dt Hi Hdt).
  destruct H as [H|H]; [done|].
  rewrite (getData_absent _ _ H). by apply reachable_ids_nonempty.
Qed.

(** An item that a list holds was built for an element of the store's
    array, whose project it shows. *)
Lemma rendered_item w type this children item :
  consistentList w type this ->
  ProjectList.listItems this = Some children ->
  item ∈ children ->
  exists p,
    objects w !! ProjectItem.project item = Some p
    /\ item = newProjectItem (ProjectItem.project item) p
    /\ Project.id p ∈ ids w.
Proof.
  intros (_ & Hassigned & [[Hnone _]|Hsome]) Hitems Hin; [congruence|].
  rewrite Hsome in Hitems. injection Hitems as <-.
  apply list_elem_of_omap in Hin as (o & Ho & Hitem).
  destruct (objects w !! o) as [p|] eqn:Hp; [|done]. injection Hitem as <-.
  exists p. simpl. split_and!; [done|done|].
  rewrite Hassigned in Ho. apply list_elem_of_In, filter_In in Ho as [Ho _].
  apply list_elem_of_fmap. exists p. split; [done|].
  unfold projectList, items. apply list_elem_of_omap.
  exists o. split; [by apply list_elem_of_In | done].
Qed.

(** X16: dragging an item that a list shows and dropping it on a list
    never throws.  The drag stores the id of the item's project;
    the drop reads it back and gives the target list's type to the first
    stored project with that id, leaving every other project as it was. *)
Theorem drag_and_drop (app : App) (w : World ProjectStatus)
    (source target : ProjectList.t) (children : list ProjectItem.t)
    (item : ProjectItem.t) (event : DragEvent.t) (dt : DataTransfer.t) :
  reachableApp app ->
  instance app = Some w ->
  source = activeList app \/ source = finishedList app ->
  ProjectList.listItems source = Some children ->
  item ∈ children ->
  DragEvent.dataTransfer event = Some dt ->
  exists p event' app' w',
    objects w !! ProjectItem.project item = Some p
    /\ ProjectItem.elementId item = Some (Project.id p)
    /\ dragStartHandler item w event = Returned event'
    /\ dropHandler target event' app = Returned app'
    /\ instance app' = Some w'
    /\ projectList w'
       = setStatusOfFirst (Project.id p) (ProjectList.type target) (projectList w).
Proof.
  intros (w0 & Hi0 & Hw & Hls & Ha & Hf)%app_consistent Hi Hsource
    Hitems Hin Hdt.
  rewrite Hi in Hi0. injection Hi0 as <-.
  assert (exists type, consistentList w type source) as [type Hc].
  { destruct Hsource as [-> | ->]; by eexists. }
  destruct (rendered_item w type source children item Hc Hitems Hin)
    as (p & Hp & Hitem & Hid).
  assert (ProjectItem.elementId item = Some (Project.id p)) as Helem.
  { rewrite Hitem. unfold newProjectItem; simpl.
    destruct (String.eqb (Project.id p) EmptyString) eqn:E; [|done].
    apply String.eqb_eq in E. rewrite E in Hid.
    by apply reachable_ids_nonempty in Hid. }
  assert (exists w' la lf,
            updateProjectRun listener (Project.id p) (ProjectList.type target) w
              (activeList app, finishedList app) = Returned (w', (la, lf))
            /\ updateProject (Project.id p) (ProjectList.type target) w = Normal w')
    as (w' & la & lf & Hrun & Hu).
  { destruct (updateProjectRun listener (Project.id p) (ProjectList.type target) w
                (activeList app, finishedList app)) as [r|e r] eqn:Hrun.
    - destruct (updateProjectRun_Returned _ _ _ _ _ _ Hw Hls (proj1 Ha) (proj1 Hf) Hrun)
        as (w' & la & lf & -> & Hu & _ & _).
      by exists w', la, lf.
    - apply updateProjectRun_Thrown in Hrun as [Hthrow _].
      unfold updateProject in Hthrow.
      destruct (List.filter _ _) eqn:Hfilter; [|done].
      by apply hasId_known in Hid. }
  unfold dragStartHandler. rewrite Hdt, Hp.
  exists p, (DragEvent.mk
               (Some (DataTransfer.mk
                        (DataTransfer.data
                           (DataTransfer.setData "text/plain" (Project.id p) dt))
                        "move"))
               (DragEvent.defaultPrevented event)),
    (mkApp (input app) (Some w') la lf), w'.
  split_and!; [done|done|reflexivity| |reflexivity|].
  - unfold dropHandler. cbn [DragEvent.dataTransfer].
    rewrite getData_setData, Hi. cbn [getInstance]. by rewrite Hrun.
  - exact (updateProject_projectList _ _ _ _ (reachable_wf _ Hw) Hu).
Qed.

Lemma expected_lengths (ps : list Project.t) :
  (length (expected ACTIVE ps) + length (expected FINISHED ps))%nat = length ps.
Proof.
  unfold expected. rewrite !length_fmap.
  induction ps as [|p ps IH]; simpl; [done|].
  destruct (Project.status p); simpl; lia.
Qed.

(** X18: the two lists split the store between them: once they have
    rendered, every stored project is shown by exactly one of them, so the
    numbers of items of the two lists add up to the number of stored
    projects. *)
Theorem lists_partition_store (app : App)
    (activeItems finishedItems : list ProjectItem.t) :
  reachableApp app ->
  ProjectList.listItems (activeList app) = Some activeItems ->
  ProjectList.listItems (finishedList app) = Some finishedItems ->
  exists w,
    instance app = Some w
    /\ (length activeItems + length finishedItems)%nat = length (projectList w).
Proof.
  intros (w & Hi & Hw & _ & Ha & Hf)%app_consistent Hia Hif.
  exists w. split; [done|].
  pose proof (consistentList_shows w ACTIVE _ Hw Ha) as Hsa.
  pose proof (consistentList_shows w FINISHED _ Hw Hf) as Hsf.
  unfold shows in Hsa, Hsf. rewrite Hia in Hsa. rewrite Hif in Hsf.
  rewrite <- (expected_lengths (projectList w)), <- Hsa, <- Hsf.
  by rewrite !length_fmap.
Qed.

End Application.

(** ** The scenarios, continued *)

Lemma validate_rejects_NaN_witness :
  is_nan nan = true /\ JS.truthy 1 = true
  /\ validate (ValidatorConfig.mk (Num nan) (Some true) None None
                                  (Some 1%float) (Some 5%float)) = false.
Proof.
  split; [reflexivity|]. split; [reflexivity|].
  exact (validate_rejects_NaN
           (ValidatorConfig.mk (Num nan) (Some true) None None
                               (Some 1%float) (Some 5%float))
           nan 1 eq_refl eq_refl (or_introl eq_refl) eq_refl).
Defined.

Lemma validate_contract_witness :
  seen (ValidatorConfig.minLength descriptionConfig) = true
  /\ (validate descriptionConfig = true
      <-> (forall s, ValidatorConfig.required descriptionConfig = Some true ->
                     ValidatorConfig.value descriptionConfig = Str s ->
                     allWhiteSpace s = false)
          /\ (forall s b, ValidatorConfig.minLength descriptionConfig = Some b ->
                          ValidatorConfig.value descriptionConfig = Str s ->
                          ge (lengthOf s) b = true)
          /\ (forall s b, ValidatorConfig.maxLength descriptionConfig = Some b ->
                          ValidatorConfig.value descriptionConfig = Str s ->
                          le (lengthOf s) b = true)
          /\ (forall n b, ValidatorConfig.min descriptionConfig = Some b ->
                          ValidatorConfig.value descriptionConfig = Num n ->
                          ge n b = true)
          /\ (forall n b, ValidatorConfig.max descriptionConfig = Some b ->
                          ValidatorConfig.value descriptionConfig = Num n ->
                          le n b = true)).
Proof.
  split; [reflexivity|].
  exact (validate_contract descriptionConfig eq_refl eq_refl eq_refl eq_refl).
Defined.

Lemma gatherUserInput_rejects_people_witness :
  Coercion.numericLiteral (JS.trim "two") = None
  /\ gatherUserInput
       (ProjectInput.mk "Build shed" "construct a garden shed" "two") = None.
Proof.
  split; [reflexivity|].
  exact (gatherUserInput_rejects_people
           (ProjectInput.mk "Build shed" "construct a garden shed" "two")
           (or_intror eq_refl)).
Defined.

Lemma steps_shed_sheds : rtc step shed sheds.
Proof. apply rtc_once. unfold sheds. apply step_addProject. Qed.

Lemma updateProject_shed : updateProject "0.5" FINISHED shed = Normal finishedShed.
Proof. reflexivity. Qed.

Lemma projects_persist_witness :
  reachable shed /\ rtc step shed sheds
  /\ exists more, core <$> projectList sheds = (core <$> projectList shed) ++ more.
Proof.
  split; [exact reachable_shed|]. split; [exact steps_shed_sheds|].
  exact (projects_persist shed sheds reachable_shed steps_shed_sheds).
Defined.

Lemma listeners_persist_witness :
  reachable shed /\ rtc step shed sheds
  /\ exists more, listeners sheds = listeners shed ++ more.
Proof.
  split; [exact reachable_shed|]. split; [exact steps_shed_sheds|].
  exact (listeners_persist shed sheds reachable_shed steps_shed_sheds).
Defined.

Lemma updateProject_twice_witness :
  reachable shed /\ updateProject "0.5" FINISHED shed = Normal finishedShed
  /\ exists w2,
       updateProject "0.5" FINISHED finishedShed = Normal w2
       /\ projectList w2 = projectList finishedShed.
Proof.
  split; [exact reachable_shed|]. split; [exact updateProject_shed|].
  exact (updateProject_twice shed finishedShed "0.5" FINISHED
           reachable_shed updateProject_shed).
Defined.

Lemma updateProject_same_status_witness :
  reachable shed
  /\ Project.status
       <$> List.find (fun p => String.eqb (Project.id p) "0.5") (projectList shed)
     = Some ACTIVE
  /\ exists w',
       updateProject "0.5" ACTIVE shed = Normal w'
       /\ projectList w' = projectList shed
       /\ notified shed w'.
Proof.
  split; [exact reachable_shed|]. split; [reflexivity|].
  exact (updateProject_same_status shed "0.5" ACTIVE reachable_shed eq_refl).
Defined.

Lemma updateProject_in_place_witness :
  reachable shed /\ updateProject "0.5" FINISHED shed = Normal finishedShed
  /\ (forall a l, arrays shed !! a = Some l -> arrays finishedShed !! a = Some l)
  /\ exists o p,
       o ∈ read (projects shed) shed
       /\ objects shed !! o = Some p /\ Project.id p = "0.5"
       /\ objects finishedShed
          = alter (Project.set_status FINISHED) o (objects shed)
       /\ forall a l, arrays shed !! a = Some l -> o ∈ l ->
            Project.set_status FINISHED p ∈ items a finishedShed.
Proof.
  split; [exact reachable_shed|]. split; [exact updateProject_shed|].
  exact (updateProject_in_place shed finishedShed "0.5" FINISHED
           reachable_shed updateProject_shed).
Defined.

Lemma snapshot_of_shed :
  2%positive <> projects shed /\ is_Some (arrays shed !! 2%positive).
Proof. split; [by intros [=] | by eexists]. Qed.

Lemma addProject_keeps_snapshots_witness :
  reachable shed /\ 2%positive <> projects shed
  /\ is_Some (arrays shed !! 2%positive)
  /\ read 2%positive (addProject 0.25 "Paint shed" "paint the garden shed" 1 shed)
     = read 2%positive shed
  /\ items 2%positive (addProject 0.25 "Paint shed" "paint the garden shed" 1 shed)
     = items 2%positive shed.
Proof.
  split; [exact reachable_shed|].
  split; [exact (proj1 snapshot_of_shed)|].
  split; [exact (proj2 snapshot_of_shed)|].
  exact (addProject_keeps_snapshots shed 2%positive
           0.25 "Paint shed" "paint the garden shed" 1
           reachable_shed (proj1 snapshot_of_shed) (proj2 snapshot_of_shed)).
Defined.

Lemma ids_visible_witness :
  reachable shed
  /\ (forall i, i ∈ ids shed -> exists x, i = JS.Number_toString x)
  /\ (forall i, i ∈ ids shed -> visible i)
  /\ forall status, updateProject EmptyString status shed = Throw TypeError shed.
Proof.
  split; [exact reachable_shed | exact (ids_visible shed reachable_shed)].
Defined.

Lemma reachableApp_page : reachableApp page.
Proof. apply app_bootstrap. Qed.

Lemma reachableApp_submitted : reachableApp submitted.
Proof. apply app_submit, reachableApp_page. Qed.

Lemma instance_submitted : instance submitted = Some submittedStore.
Proof. reflexivity. Qed.

Lemma items_submitted :
  ProjectList.listItems (activeList submitted) = Some [shedItem]
  /\ ProjectList.listItems (finishedList submitted) = Some [].
Proof. split; reflexivity. Qed.

Lemma lists_show_store_witness :
  reachableApp submitted
  /\ exists w,
       instance submitted = Some w
       /\ reachable w
       /\ listeners w = [ACTIVE; FINISHED]
       /\ shows (activeList submitted) ACTIVE (projectList w)
       /\ shows (finishedList submitted) FINISHED (projectList w).
Proof.
  split; [exact reachableApp_submitted|].
  exact (lists_show_store submitted reachableApp_submitted).
Defined.

Lemma stored_projects_accepted_witness :
  reachableApp submitted
  /\ exists w,
       instance submitted = Some w /\ forall p, p ∈ projectList w -> accepted p.
Proof.
  split; [exact reachableApp_submitted|].
  exact (stored_projects_accepted submitted reachableApp_submitted).
Defined.

Lemma lists_partition_store_witness :
  reachableApp submitted
  /\ exists w,
       instance submitted = Some w
       /\ (length [shedItem] + length (@nil ProjectItem.t))%nat
          = length (projectList w).
Proof.
  split; [exact reachableApp_submitted|].
  exact (lists_partition_store submitted [shedItem] []
           reachableApp_submitted (proj1 items_submitted) (proj2 items_submitted)).
Defined.

Lemma submitHandler_spec_witness :
  reachableApp page
  /\ match gatherUserInput (input page) with
     | None => submitHandler 0.5 page = page
     | Some (title, desc, people) =>
         exists w active finished activeItems finishedItems,
           instance page = Some w
           /\ submitHandler 0.5 page
              = mkApp (ProjectInput.mk EmptyString EmptyString EmptyString)
                      (Some (addProject 0.5 title desc people w))
                      active finished
           /\ ProjectList.listItems active = Some activeItems
           /\ view <$> activeItems
              = expected ACTIVE (projectList w)
                ++ [(Some (JS.Number_toString 0.5), title,
                     peopleCount (Project.mk (JS.Number_toString 0.5) title desc
                                             people ACTIVE),
                     desc)]
           /\ ProjectList.listItems finished = Some finishedItems
           /\ view <$> finishedItems = expected FINISHED (projectList w)
     end.
Proof.
  split; [exact reachableApp_page | exact (submitHandler_spec 0.5 page reachableApp_page)].
Defined.

Lemma drop_foreign_witness :
  reachableApp submitted
  /\ ("text/plain" ∉ DataTransfer.types (DataTransfer.mk [] "uninitialized"))
  /\ dropHandler (finishedList submitted) emptyDrag submitted
     = Thrown TypeError submitted.
Proof.
  assert ("text/plain" ∉ DataTransfer.types (DataTransfer.mk [] "uninitialized"))
    as H by apply not_elem_of_nil.
  split; [exact reachableApp_submitted|]. split; [exact H|].
  exact (drop_foreign submitted submittedStore (finishedList submitted) emptyDrag
           (DataTransfer.mk [] "uninitialized")
           reachableApp_submitted instance_submitted eq_refl (or_intror H)).
Defined.

Lemma drag_and_drop_witness :
  reachableApp submitted
  /\ (shedItem ∈ [shedItem])
  /\ exists p event' app' w',
       objects submittedStore !! ProjectItem.project shedItem = Some p
       /\ ProjectItem.elementId shedItem = Some (Project.id p)
       /\ dragStartHandler shedItem submittedStore emptyDrag = Returned event'
       /\ dropHandler (finishedList submitted) event' submitted = Returned app'
       /\ instance app' = Some w'
       /\ projectList w'
          = setStatusOfFirst (Project.id p)
              (ProjectList.type (finishedList submitted))
              (projectList submittedStore).
Proof.
  assert (shedItem ∈ [shedItem]) as H by by left.
  split; [exact reachableApp_submitted|]. split; [exact H|].
  exact (drag_and_drop submitted submittedStore (activeList submitted)
           (finishedList submitted) [shedItem] shedItem emptyDrag
           (DataTransfer.mk [] "uninitialized")
           reachableApp_submitted instance_submitted (or_introl eq_refl)
           (proj1 items_submitted) H eq_refl).
Defined.
